(** * python-gold: the extraction, normalization and aggregation core of
    [xinlang.py], embedded in Rocq.

    The Python functions [GoldDataConfig.get_config],
    [parse_complete_gold_data] and [analyze_gold_data] are translated
    definition by definition.  What the Python runtime supplies (the [re]
    engine, [str.strip], [float], [Counter], [sorted], [max], [min], the
    ["%.1f"] formatter) is translated as far as this program uses it.

    The functions that name and write the files follow:
    [GoldDataConfig.get_filename] and [save_data] of [xinlang.py], and the
    methods [_save_data], [load_data], [fetch_and_save_data],
    [get_all_data_summary] and [compare_gold_types] of the
    [GoldDataManager] of [gold_data_manager.py], over a directory that maps
    the names of the files to what was written to them. *)

From Stdlib Require Import String Ascii ZArith NArith QArith Floats Uint63 Lia.
From stdpp Require Import base decidable option list countable gmap sorting.

Open Scope N_scope.

(** ** Text

    A Python [str] is a sequence of Unicode code points. *)

Definition char := N.
Definition str := list N.

(** Literals are written as Rocq strings (UTF-8 bytes) and decoded. *)
Fixpoint utf8_decode (bs : list N) : str :=
  match bs with
  | [] => []
  | b :: r =>
      if b <? 128 then b :: utf8_decode r
      else if b <? 224 then
        match r with
        | b1 :: r1 => ((b - 192) * 64 + (b1 - 128)) :: utf8_decode r1
        | _ => []
        end
      else if b <? 240 then
        match r with
        | b1 :: b2 :: r2 =>
            ((b - 224) * 4096 + (b1 - 128) * 64 + (b2 - 128)) :: utf8_decode r2
        | _ => []
        end
      else
        match r with
        | b1 :: b2 :: b3 :: r3 =>
            ((b - 240) * 262144 + (b1 - 128) * 4096 + (b2 - 128) * 64 + (b3 - 128))
              :: utf8_decode r3
        | _ => []
        end
  end.

Definition py (s : string) : str :=
  utf8_decode (map N_of_ascii (list_ascii_of_string s)).

Definition ch (a : ascii) : char := N_of_ascii a.

(** The characters the program names. *)
Definition c_lt : char := Eval cbv in ch "<".
Definition c_gt : char := Eval cbv in ch ">".
Definition c_point : char := Eval cbv in ch ".".

(** [str.isspace] on one code point, which is also what [\s] matches in a
    [str] pattern: U+0009..U+000D, U+001C..U+0020, U+0085, U+00A0, U+1680,
    U+2000..U+200A, U+2028, U+2029, U+202F, U+205F, U+3000. *)
Definition isspace (c : char) : bool :=
  ((9 <=? c) && (c <=? 13)) || ((28 <=? c) && (c <=? 32))
  || (c =? 133) || (c =? 160) || (c =? 5760)
  || ((8192 <=? c) && (c <=? 8202))
  || (c =? 8232) || (c =? 8233) || (c =? 8239) || (c =? 8287) || (c =? 12288).

(** The code points of the digit zero of every decimal digit block (general
    category Nd, Unicode 14); each block is ten consecutive code points. *)
Definition decimal_zeros : list N :=
  [48; 1632; 1776; 1984; 2406; 2534; 2662; 2790; 2918; 3046; 3174; 3302;
   3430; 3558; 3664; 3792; 3872; 4160; 4240; 6112; 6160; 6470; 6608; 6784;
   6800; 6992; 7088; 7232; 7248; 42528; 43216; 43264; 43472; 43504; 43600;
   44016; 65296; 66720; 68912; 69734; 69872; 69942; 70096; 70384; 70736;
   70864; 71248; 71360; 71472; 71904; 72016; 72784; 73040; 73120; 92768;
   92864; 93008; 120782; 120792; 120802; 120812; 120822; 123200; 123632;
   125264; 130032].

(** The value of a decimal digit, as [unicodedata.decimal] gives it. *)
Fixpoint decimal_in (zs : list N) (c : char) : option N :=
  match zs with
  | [] => None
  | z :: zs' => if (z <=? c) && (c <? z + 10) then Some (c - z) else decimal_in zs' c
  end.

Definition decimal_value (c : char) : option N := decimal_in decimal_zeros c.

(** [str.isdecimal] on one code point, which is what [\d] matches. *)
Definition isdecimal (c : char) : bool :=
  match decimal_value c with Some _ => true | None => false end.

(** [str.lstrip()], [str.rstrip()] and [str.strip()] without argument. *)
Fixpoint lstrip (s : str) : str :=
  match s with
  | c :: s' => if isspace c then lstrip s' else s
  | [] => []
  end.

Definition rstrip (s : str) : str := reverse (lstrip (reverse s)).

Definition strip (s : str) : str := rstrip (lstrip s).

(** ** The regular expressions of the program

    Only the constructs the three patterns use: literal text, one
    character of a class, the greedy quantifiers [*], [+] and [?] applied
    to a class, capture groups and concatenation. *)

Inductive atom : Type :=
| Chr (c : char)        (* the character itself, as in [\.] *)
| NotChr (c : char)     (* [[^c]]; with re.DOTALL or without: a negated class
                           matches the newline too *)
| Space                 (* [\s] *)
| Digit.                (* [\d] *)

Definition atom_ok (a : atom) (c : char) : bool :=
  match a with
  | Chr x => c =? x
  | NotChr x => negb (c =? x)
  | Space => isspace c
  | Digit => isdecimal c
  end.

Inductive regex : Type :=
| Lit (l : str)
| Star (a : atom)
| Plus (a : atom)
| Opt (a : atom)
| Group (r : regex)
| Cat (r1 r2 : regex).

Declare Scope regex_scope.
Delimit Scope regex_scope with re.
Bind Scope regex_scope with regex.
Infix "⋅" := Cat (at level 60, right associativity) : regex_scope.

(** [drop_literal l s]: the rest of [s] after the literal [l]. *)
Fixpoint drop_literal (l s : str) : option str :=
  match l with
  | [] => Some s
  | x :: l' =>
      match s with
      | c :: s' => if c =? x then drop_literal l' s' else None
      | [] => None
      end
  end.

Section Matcher.
Context {A : Type}.

(** The first [Some] of two alternatives, in priority order. *)
Definition orelse (x : option A) (y : option A) : option A :=
  match x with Some r => Some r | None => y end.

(** Greedy [a*] followed by the continuation [k]: the engine first tries
    to take one more character and falls back to stopping here. *)
Fixpoint star (a : atom) (k : str → option A) (s : str) : option A :=
  match s with
  | c :: s' => if atom_ok a c then orelse (star a k s') (k s) else k s
  | [] => k []
  end.

(** A backtracking matcher in continuation-passing style: [k] receives
    the remaining text and the groups captured so far.  The patterns nest
    no groups, so appending a group's text when it closes numbers the
    groups as Python does. *)
Fixpoint match_re (r : regex) (s : str) (g : list str)
    (k : str → list str → option A) : option A :=
  match r with
  | Lit l => match drop_literal l s with Some s' => k s' g | None => None end
  | Star a => star a (λ s', k s' g) s
  | Plus a =>
      match s with
      | c :: s' => if atom_ok a c then star a (λ s'', k s'' g) s' else None
      | [] => None
      end
  | Opt a =>
      match s with
      | c :: s' => if atom_ok a c then orelse (k s' g) (k s g) else k s g
      | [] => k s g
      end
  | Group r1 =>
      match_re r1 s g (λ s' g', k s' (g' ++ [take (length s - length s') s]))
  | Cat r1 r2 => match_re r1 s g (λ s' g', match_re r2 s' g' k)
  end.
End Matcher.

(** A match anchored at the start of [s]: its groups and the text left. *)
Definition match_here (r : regex) (s : str) : option (list str * str) :=
  match_re r s [] (λ s' g, Some (g, s')).

(** [re.search(r, s)]: the leftmost match; its groups are what
    [m.group(1)], ... read. *)
Fixpoint search (r : regex) (s : str) : option (list str * str) :=
  match match_here r s with
  | Some m => Some m
  | None => match s with [] => None | _ :: s' => search r s' end
  end.

(** [re.findall(r, s)] for a pattern with several groups: the tuples of
    groups of the non-overlapping matches, scanning from the left.  [skip]
    counts the characters still covered by the previous match. *)
Fixpoint findall_from (r : regex) (s : str) (skip : nat) : list (list str) :=
  match s with
  | [] =>
      match skip, match_here r [] with
      | O, Some (g, _) => [g]
      | _, _ => []
      end
  | _ :: s' =>
      match skip with
      | S n => findall_from r s' n
      | O =>
          match match_here r s with
          | Some (g, rest) => g :: findall_from r s' (length s - length rest - 1)
          | None => findall_from r s' 0
          end
      end
  end.

Definition findall (r : regex) (s : str) : list (list str) := findall_from r s 0.

(** ** Exceptions

    A Python call either returns a value or raises. *)

Inductive exn : Type :=
  ValueError | AttributeError | KeyError | IndexError | ZeroDivisionError.

Inductive result (A : Type) : Type :=
| Ok (a : A)
| Raise (e : exn).
Arguments Ok {A} a.
Arguments Raise {A} e.

#[global] Instance result_ret : MRet result := λ A a, Ok a.
#[global] Instance result_bind : MBind result := λ A B f x,
  match x with Ok a => f a | Raise e => Raise e end.

(** ** [float] on the tokens of the price pattern

    A Python float is modelled by the rational number it denotes: [float]
    of a decimal numeral is the numeral's exact value (the interpreter rounds
    it to the nearest binary64, and to [inf] beyond the range; both keep the
    order and the sign, and a numeral never gives a NaN).  Only unsigned numerals [digits], [digits.],
    [.digits] and [digits.digits] are covered, with the digits of any
    decimal block as [float] accepts them; every other text is a
    [ValueError] here, which the program never reaches. *)

Fixpoint digits_value (acc : N) (s : str) : option N :=
  match s with
  | [] => Some acc
  | c :: s' =>
      match decimal_value c with
      | Some d => digits_value (acc * 10 + d) s'
      | None => None
      end
  end.

(** The text before the first ['.'] and, when there is one, the text after. *)
Fixpoint split_point (s : str) : str * option str :=
  match s with
  | [] => ([], None)
  | c :: s' =>
      if c =? c_point then ([], Some s')
      else let '(i, f) := split_point s' in (c :: i, f)
  end.

Definition pow10 (k : nat) : positive := Nat.iter k (Pos.mul 10) 1%positive.

Definition py_float (s : str) : result Q :=
  let '(i, f) := split_point s in
  let f := default [] f in
  match i ++ f with
  | [] => Raise ValueError
  | ds =>
      match digits_value 0 ds with
      | Some n => Ok (Z.of_N n # pow10 (length f))
      | None => Raise ValueError
      end
  end.

(** ** The category registry *)

Inductive GoldType : Type := JEWELRY | PHYSICAL | GOLD_BAR.

#[global] Instance GoldType_eq_dec : EqDecision GoldType.
Proof. solve_decision. Defined.

(** What a caller can pass as [gold_type]: a member of the enumeration, or
    any other hashable value, for which a string stands. *)
Inductive category_id : Type :=
| Member (g : GoldType)
| Foreign (s : str).

#[global] Instance category_id_eq_dec : EqDecision category_id.
Proof. solve_decision. Defined.

(** [gold_type.value]; a value that is no enumeration member has no such
    attribute. *)
Definition value (gold_type : category_id) : result str :=
  match gold_type with
  | Member JEWELRY => Ok (py "jewelry")
  | Member PHYSICAL => Ok (py "physical")
  | Member GOLD_BAR => Ok (py "gold_bar")
  | Foreign _ => Raise AttributeError
  end.

Record config : Type := Config {
  name : str;
  filename_prefix : str;
  url_params : list (string * Z);
  description : str
}.

(** A dict as the association list of its items, in insertion order. *)
Fixpoint dict_lookup {K V : Type} `{EqDecision K} (d : list (K * V)) (k : K) : option V :=
  match d with
  | [] => None
  | (k', v) :: d' => if decide (k = k') then Some v else dict_lookup d' k
  end.

(** [d[k]] *)
Definition getitem {K V : Type} `{EqDecision K} (d : list (K * V)) (k : K) : result V :=
  match dict_lookup d k with Some v => Ok v | None => Raise KeyError end.

(** [d.get(k, dflt)] *)
Definition dict_get {K V : Type} `{EqDecision K} (d : list (K * V)) (k : K) (dflt : V) : V :=
  default dflt (dict_lookup d k).

Module GoldDataConfig.

Definition GOLD_CONFIGS : list (category_id * config) :=
  [ (Member JEWELRY,
      {| name := py "首饰黄金";
         filename_prefix := py "jewelry_gold";
         url_params := [("pp"%string, 0%Z); ("pz"%string, 15%Z)];
         description := py "各大品牌首饰黄金价格数据" |});
    (Member PHYSICAL,
      {| name := py "实物黄金";
         filename_prefix := py "physical_gold";
         url_params := [("pp"%string, 0%Z); ("pz"%string, 11%Z)];
         description := py "实物黄金投资产品价格数据" |});
    (Member GOLD_BAR,
      {| name := py "金条";
         filename_prefix := py "gold_bar";
         url_params := [("pp"%string, 0%Z); ("pz"%string, 15%Z)];
         description := py "各种规格金条价格数据" |}) ].

(** [cls.GOLD_CONFIGS.get(gold_type, cls.GOLD_CONFIGS[GoldType.JEWELRY])]:
    the default is evaluated first, by subscript. *)
Definition get_config (gold_type : category_id) : result config :=
  dflt ← getitem GOLD_CONFIGS (Member JEWELRY);
  Ok (dict_get GOLD_CONFIGS gold_type dflt).

End GoldDataConfig.

(** ** The patterns of [parse_complete_gold_data] *)

Definition s_td : str := Eval cbv in py "<td".
Definition s_gt : str := Eval cbv in py ">".
Definition s_td_end : str := Eval cbv in py "</td>".
Definition s_div : str := Eval cbv in py "<div".
Definition s_div_td_end : str := Eval cbv in py "</div></td>".

(** One cell of [pattern]: [<td], attributes up to the first [>], the
    captured text up to the next [<], and [</td>]. *)
Definition td_cell : regex :=
  (Lit s_td ⋅ Star (NotChr c_gt) ⋅ Lit s_gt ⋅ Group (Star (NotChr c_lt)) ⋅ Lit s_td_end)%re.

(** One cell of [pattern2]: the same with the text inside a [<div ...>]
    element. *)
Definition div_cell : regex :=
  (Lit s_td ⋅ Star (NotChr c_gt) ⋅ Lit s_gt ⋅ Lit s_div ⋅ Star (NotChr c_gt) ⋅ Lit s_gt
   ⋅ Group (Star (NotChr c_lt)) ⋅ Lit s_div_td_end)%re.

(** Eight cells, any white space between two of them. *)
Definition eight (cell : regex) : regex :=
  (cell ⋅ Star Space ⋅ cell ⋅ Star Space ⋅ cell ⋅ Star Space ⋅ cell ⋅ Star Space
   ⋅ cell ⋅ Star Space ⋅ cell ⋅ Star Space ⋅ cell ⋅ Star Space ⋅ cell)%re.

Definition pattern : regex := eight td_cell.
Definition pattern2 : regex := eight div_cell.

(** The price token: one group holding one or more digits, an optional
    point and any further digits. *)
Definition price_pattern : regex :=
  Group (Plus Digit ⋅ Opt (Chr c_point) ⋅ Star Digit)%re.

(** ** Records

    The dict built for every valid row, with the local variables' names for
    its keys 日期, 品牌, 产品, 价格, 价格_数值, 单位, 纯度, 手工费, 涨跌, 黄金类型,
    黄金类型代码, 数据来源 and 解析时间. *)
Record gold_record : Type := GoldRecord {
  date : str;
  brand : str;
  product : str;
  price : str;
  price_value : option Q;       (* [None] is Python's [None] *)
  unit : str;
  purity : str;
  craft_fee : str;
  trend : str;
  gold_type_name : str;
  gold_type_code : str;
  source : str;
  parsed_at : str
}.

(** The truth value of a string in a condition. *)
Definition truthy (s : str) : bool :=
  match s with [] => false | _ :: _ => true end.

(** The key of the first loop, [(match[0], match[1], match[2], match[3])]. *)
Definition key : Type := str * str * str * str.

Definition key_of (m : list str) : result key :=
  match m with
  | f0 :: f1 :: f2 :: f3 :: _ => Ok (f0, f1, f2, f3)
  | _ => Raise IndexError
  end.

(** The first loop: candidates with at least 7 groups, first one per key. *)
Fixpoint dedup_loop (pool : list (list str)) (seen : gset key)
    (all_matches : list (list str)) : result (list (list str)) :=
  match pool with
  | [] => Ok all_matches
  | m :: rest =>
      if (7 <=? length m)%nat then
        k ← key_of m;
        if decide (k ∈ seen) then dedup_loop rest seen all_matches
        else dedup_loop rest ({[k]} ∪ seen) (all_matches ++ [m])
      else dedup_loop rest seen all_matches
  end.

(** [datetime.now().isoformat()]: the wall clock is an oracle giving the
    text of the [t]-th reading made during the call. *)
Definition clock : Type := nat → str.

(** The body of the second loop for one candidate: [Ok None] when the row
    is skipped, [Ok (Some data)] when [data] is appended. *)
Definition normalize_row (now : clock) (t : nat) (cfg : config)
    (gold_type : category_id) (m : list str) : result (option gold_record) :=
  if (7 <=? length m)%nat then
    match take 8 m with
    | [date; brand; product; price; unit; purity; craft_fee; trend] =>
        let date := strip date in
        let brand := strip brand in
        let product := strip product in
        let price := strip price in
        let unit := strip unit in
        let purity := strip purity in
        let craft_fee := strip craft_fee in
        let trend := strip trend in
        if truthy date && truthy brand && truthy product && truthy price && truthy unit
        then
          price_value ←
            match search price_pattern price with
            | Some (g, _) =>
                match g with
                | tok :: _ => v ← py_float tok; Ok (Some v)
                | [] => Raise IndexError
                end
            | None => Ok None
            end;
          code ← value gold_type;
          Ok (Some {| date := date; brand := brand; product := product;
                      price := price; price_value := price_value;
                      unit := unit; purity := purity; craft_fee := craft_fee;
                      trend := trend;
                      gold_type_name := name cfg;
                      gold_type_code := code;
                      source := py "新浪财经";
                      parsed_at := now t |})
        else Ok None
    | _ => Raise ValueError   (* unpacking a 7-tuple into 8 names *)
    end
  else Ok None.

(** The second loop. *)
Fixpoint normalize_loop (now : clock) (cfg : config) (gold_type : category_id)
    (all_matches : list (list str)) (t : nat) (gold_data : list gold_record)
    : result (list gold_record) :=
  match all_matches with
  | [] => Ok gold_data
  | m :: rest =>
      d ← normalize_row now t cfg gold_type m;
      match d with
      | Some data => normalize_loop now cfg gold_type rest (S t) (gold_data ++ [data])
      | None => normalize_loop now cfg gold_type rest t gold_data
      end
  end.

Definition parse_complete_gold_data (now : clock) (html_text : str)
    (gold_type : category_id) : result (list gold_record) :=
  cfg ← GoldDataConfig.get_config gold_type;
  let matches1 := findall pattern html_text in
  let matches2 := findall pattern2 html_text in
  all_matches ← dedup_loop (matches1 ++ matches2) ∅ [];
  normalize_loop now cfg gold_type all_matches 0 [].

(** ** What [analyze_gold_data] takes from the runtime *)

(** [Counter(l)]: the counts of the elements of [l], as the dict of its
    items in first-occurrence order. *)
Fixpoint counter_add (k : str) (c : list (str * nat)) : list (str * nat) :=
  match c with
  | [] => [(k, 1%nat)]
  | (k', n) :: c' =>
      if decide (k = k') then (k', S n) :: c' else (k', n) :: counter_add k c'
  end.

Definition Counter (l : list str) : list (str * nat) :=
  foldl (λ c k, counter_add k c) [] l.

(** A stable sort, as [sorted] is: [before y x] says that [y], although
    later in the input, goes in front of [x]. *)
Section Sorting.
Context {A : Type} (before : A → A → bool).

Fixpoint insert_sorted (x : A) (l : list A) : list A :=
  match l with
  | [] => [x]
  | y :: l' => if before y x then y :: insert_sorted x l' else x :: l
  end.

Definition sorted_by (l : list A) : list A := foldr insert_sorted [] l.
End Sorting.

(** [c.most_common()] and [c.most_common(n)]: by count, largest first,
    equal counts in the order of first occurrence. *)
Definition most_common (c : list (str * nat)) : list (str * nat) :=
  sorted_by (λ y x, (x.2 <? y.2)%nat) c.

Definition most_common_n (n : nat) (c : list (str * nat)) : list (str * nat) :=
  take n (most_common c).

Definition Qltb (x y : Q) : bool := negb (Qle_bool y x).

(** [sorted(prices)] *)
Definition sorted (prices : list Q) : list Q := sorted_by Qltb prices.

(** [max(l)] and [min(l)] keep the first of several equal extremes and
    raise on an empty list. *)
Definition py_max (l : list Q) : result Q :=
  match l with
  | [] => Raise ValueError
  | x :: l' => Ok (foldl (λ m y, if Qltb m y then y else m) x l')
  end.

Definition py_min (l : list Q) : result Q :=
  match l with
  | [] => Raise ValueError
  | x :: l' => Ok (foldl (λ m y, if Qltb y m then y else m) x l')
  end.

(** [sum(l)], from the integer 0. *)
Definition py_sum (l : list Q) : Q := foldl Qplus 0%Q l.

(** [x / n] for a length [n]. *)
Definition div_len (x : Q) (n : nat) : result Q :=
  match n with
  | O => Raise ZeroDivisionError
  | S _ => Ok (x / inject_Z (Z.of_nat n))%Q
  end.

(** [l[i]] *)
Definition index {A : Type} (l : list A) (i : nat) : result A :=
  match l !! i with Some x => Ok x | None => Raise IndexError end.

(** The order of [str], code point by code point. *)
Fixpoint str_ltb (a b : str) : bool :=
  match a, b with
  | _, [] => false
  | [], _ :: _ => true
  | x :: a', y :: b' => (x <? y) || ((x =? y) && str_ltb a' b')
  end.

Definition str_min (l : list str) : result str :=
  match l with
  | [] => Raise ValueError
  | x :: l' => Ok (foldl (λ m y, if str_ltb y m then y else m) x l')
  end.

Definition str_max (l : list str) : result str :=
  match l with
  | [] => Raise ValueError
  | x :: l' => Ok (foldl (λ m y, if str_ltb m y then y else m) x l')
  end.

(** *** Percentages

    [v / total_records * 100] is computed on binary64 floats, which the
    kernel's primitive floats are; the counts are far below 2^53, where the
    quotient of two integers is the quotient of their floats. *)

Definition float_of_nat (n : nat) : float :=
  PrimFloat.of_uint63 (Uint63.of_Z (Z.of_nat n)).

Fixpoint uint_digits (d : Decimal.uint) : str :=
  match d with
  | Decimal.Nil => []
  | Decimal.D0 d => 48 :: uint_digits d
  | Decimal.D1 d => 49 :: uint_digits d
  | Decimal.D2 d => 50 :: uint_digits d
  | Decimal.D3 d => 51 :: uint_digits d
  | Decimal.D4 d => 52 :: uint_digits d
  | Decimal.D5 d => 53 :: uint_digits d
  | Decimal.D6 d => 54 :: uint_digits d
  | Decimal.D7 d => 55 :: uint_digits d
  | Decimal.D8 d => 56 :: uint_digits d
  | Decimal.D9 d => 57 :: uint_digits d
  end.

(** The decimal numeral of a natural number. *)
Definition digits_of (n : Z) : str := uint_digits (N.to_uint (Z.to_N n)).

(** [num / den] rounded to the nearest integer, ties to even. *)
Definition round_half_even (num den : Z) : Z :=
  let q := (num / den)%Z in
  match (2 * (num mod den) ?= den)%Z with
  | Lt => q
  | Gt => (q + 1)%Z
  | Eq => if Z.even q then q else (q + 1)%Z
  end.

(** [format(x, ".1f")]: the exact binary value of [x], correctly rounded to
    one decimal. *)
Definition format_1f (x : float) : str :=
  match Prim2SF x with
  | S754_zero s => (if s then py "-" else []) ++ py "0.0"
  | S754_infinity s => (if s then py "-" else []) ++ py "inf"
  | S754_nan => py "nan"
  | S754_finite s m e =>
      let tenths :=
        if (0 <=? e)%Z then (10 * Z.pos m * 2 ^ e)%Z
        else round_half_even (10 * Z.pos m) (2 ^ (- e)) in
      (if s then py "-" else []) ++ digits_of (tenths / 10)
        ++ py "." ++ digits_of (tenths mod 10)
  end.

(** [f"{(v/total_records*100):.1f}%"] *)
Definition percent (v total_records : nat) : result str :=
  match total_records with
  | O => Raise ZeroDivisionError
  | S _ =>
      Ok (format_1f (float_of_nat v / float_of_nat total_records * 100)%float
            ++ py "%")
  end.

(** ** The report of [analyze_gold_data]

    Its sections 数据概览, 品牌分析, 产品分析, 价格分析, 趋势分析 and 日期分析, each
    with its entries in the order of the source. *)

Record overview : Type := Overview {
  total_records : nat;           (* 总记录数 *)
  date_range : str;              (* 数据日期范围 *)
  brand_number : nat;            (* 品牌数量 *)
  product_number : nat;          (* 产品类型数量 *)
  valid_price_number : nat       (* 有效价格记录数 *)
}.

Record price_stats : Type := PriceStats {
  highest : Q;                   (* 最高价 *)
  lowest : Q;                    (* 最低价 *)
  average : Q;                   (* 平均价 *)
  median : Q;                    (* 中位数 *)
  price_number : nat             (* 记录数 *)
}.

Record report : Type := Report {
  data_overview : overview;
  brand_stats : list (str * nat);          (* 品牌统计 *)
  main_brands : list (str * nat);          (* 主要品牌 *)
  product_stats : list (str * nat);        (* 产品类型统计 *)
  hot_products : list (str * nat);         (* 热门产品 *)
  price_analysis : option price_stats;     (* [None] is the empty dict *)
  trend_stats : list (str * nat);          (* 涨跌统计 *)
  trend_ratio : list (str * str);          (* 涨跌比例 *)
  date_stats : list (str * nat);           (* 日期统计 *)
  date_number : nat                        (* 数据日期数 *)
}.

(** What the function returns: the dict without any key, or the report. *)
Inductive analysis : Type :=
| EmptyDict
| Sections (r : report).

(** [analysis["数据概览"]] and [analysis["价格分析"]], as the callers read
    them. *)
Definition get_overview (a : analysis) : result overview :=
  match a with
  | EmptyDict => Raise KeyError
  | Sections r => Ok (data_overview r)
  end.

Definition get_price_analysis (a : analysis) : result (option price_stats) :=
  match a with
  | EmptyDict => Raise KeyError
  | Sections r => Ok (price_analysis r)
  end.

(** The prices that are not [None], in the order of the records. *)
Fixpoint present_prices (gold_data : list gold_record) : list Q :=
  match gold_data with
  | [] => []
  | item :: rest =>
      match price_value item with
      | Some p => p :: present_prices rest
      | None => present_prices rest
      end
  end.

(** The dict comprehension of 涨跌比例 over [trend_counts.items()]. *)
Fixpoint trend_percentages (items : list (str * nat)) (total_records : nat)
    : result (list (str * str)) :=
  match items with
  | [] => Ok []
  | (k, v) :: rest =>
      p ← percent v total_records;
      ps ← trend_percentages rest total_records;
      Ok ((k, p) :: ps)
  end.

Definition analyze_gold_data (gold_data : list gold_record) : result analysis :=
  match gold_data with
  | [] => Ok EmptyDict
  | _ :: _ =>
      let total_records := length gold_data in
      let brands := brand <$> gold_data in
      let brand_counts := Counter brands in
      let products := product <$> gold_data in
      let product_counts := Counter products in
      let prices := present_prices gold_data in
      price_analysis ←
        match prices with
        | [] => Ok None
        | _ :: _ =>
            hi ← py_max prices;
            lo ← py_min prices;
            avg ← div_len (py_sum prices) (length prices);
            med ← index (sorted prices) (length prices / 2);
            Ok (Some {| highest := hi; lowest := lo; average := avg;
                        median := med; price_number := length prices |})
        end;
      let trends := trend <$> gold_data in
      let trend_counts := Counter trends in
      let dates := date <$> gold_data in
      let date_counts := Counter dates in
      range ←
        match dates with
        | [] => Ok (py "无数据")
        | _ :: _ =>
            d0 ← str_min dates;
            d1 ← str_max dates;
            Ok (d0 ++ py " 至 " ++ d1)
        end;
      ratio ← trend_percentages trend_counts total_records;
      Ok (Sections
        {| data_overview :=
             {| total_records := total_records;
                date_range := range;
                brand_number := length brand_counts;
                product_number := length product_counts;
                valid_price_number := length prices |};
           brand_stats := most_common brand_counts;
           main_brands := most_common_n 10 brand_counts;
           product_stats := most_common product_counts;
           hot_products := most_common_n 10 product_counts;
           price_analysis := price_analysis;
           trend_stats := trend_counts;
           trend_ratio := ratio;
           date_stats := most_common date_counts;
           date_number := length date_counts |})
  end.

(** ** Definitions used to state the properties *)

(** The number of capture groups of a pattern. *)
Fixpoint ngroups (r : regex) : nat :=
  match r with
  | Group r1 => S (ngroups r1)
  | Cat r1 r2 => (ngroups r1 + ngroups r2)%nat
  | _ => O
  end.

(** The longest prefix of decimal digits, and the rest. *)
Fixpoint span_digits (s : str) : str * str :=
  match s with
  | c :: s' =>
      if isdecimal c then let '(d, r) := span_digits s' in (c :: d, r)
      else ([], s)
  | [] => ([], [])
  end.

(** A run of digits starting at the head of [s], with the point that follows
    it and the digits after the point, when there are: the token and the
    text after it. *)
Definition number_at (s : str) : option (str * str) :=
  match span_digits s with
  | ([], _) => None
  | (d1, c :: r2) =>
      if c =? c_point then
        let '(d2, r3) := span_digits r2 in Some (d1 ++ c :: d2, r3)
      else Some (d1, c :: r2)
  | (d1, []) => Some (d1, [])
  end.

(** The first such token of [s]. *)
Fixpoint first_number (s : str) : option str :=
  match number_at s with
  | Some (tok, _) => Some tok
  | None => match s with [] => None | _ :: s' => first_number s' end
  end.


(** Whether the text starts with a character of the class. *)
Definition head_ok (a : atom) (s : str) : bool :=
  match s with c :: _ => atom_ok a c | [] => false end.


(** The text after the optional point and the digits that follow it. *)
Definition after_fraction (r1 : str) : str :=
  match r1 with
  | c :: r2 => if c =? c_point then (span_digits r2).2 else r1
  | [] => []
  end.


(** The shape of a price token: digits, then possibly a point and digits. *)
Definition number_token (tok : str) : Prop :=
  ∃ d1 : str, d1 ≠ [] ∧ Forall (λ c, isdecimal c = true) d1 ∧
    (tok = d1 ∨ ∃ d2 : str, Forall (λ c, isdecimal c = true) d2 ∧ tok = d1 ++ c_point :: d2).

(** The two lines that compute [price_value] from the trimmed price text. *)
Definition price_step (price : str) : result (option Q) :=
  match search price_pattern price with
  | Some (g, _) =>
      match g with
      | tok :: _ => v ← py_float tok; Ok (Some v)
      | [] => Raise IndexError
      end
  | None => Ok None
  end.

(** The five fields a record needs are not empty. *)
Definition required (date brand product price unit : str) : bool :=
  truthy date && truthy brand && truthy product && truthy price && truthy unit.

(** The compound key of a candidate: its first four fields. *)
Definition row_key (m : list str) : key :=
  (nth 0 m [], nth 1 m [], nth 2 m [], nth 3 m []).

(** The candidate at position [i] of the pool is the first with its key. *)
Definition is_first (pool : list (list str)) (i : nat) (m : list str) : bool :=
  bool_decide (row_key m ∉ row_key <$> take i pool).

(** The first-seen candidate of every key, in the order of the pool. *)
Definition first_seen (pool : list (list str)) : list (list str) :=
  omap (λ im, if is_first pool im.1 im.2 then Some im.2 else None)
       (zip (seq 0 (length pool)) pool).

(** A candidate whose five required fields are not empty once trimmed. *)
Definition row_valid (m : list str) : bool :=
  required (strip (nth 0 m [])) (strip (nth 1 m [])) (strip (nth 2 m []))
           (strip (nth 3 m [])) (strip (nth 4 m [])).

(** The record with another time stamp. *)
Definition stamp (time : str) (r : gold_record) : gold_record :=
  {| date := date r; brand := brand r; product := product r; price := price r;
     price_value := price_value r; unit := unit r; purity := purity r;
     craft_fee := craft_fee r; trend := trend r;
     gold_type_name := gold_type_name r; gold_type_code := gold_type_code r;
     source := source r; parsed_at := time |}.

(** Two records agree in every field except [parsed_at]. *)
Definition same_fields (a b : gold_record) : Prop :=
  date a = date b ∧ brand a = brand b ∧ product a = product b ∧
  price a = price b ∧ price_value a = price_value b ∧ unit a = unit b ∧
  purity a = purity b ∧ craft_fee a = craft_fee b ∧ trend a = trend b ∧
  gold_type_name a = gold_type_name b ∧ gold_type_code a = gold_type_code b ∧
  source a = source b.

(** The record holds the trimmed fields of the candidate. *)
Definition record_of_row (m : list str) (r : gold_record) : Prop :=
  date r = strip (nth 0 m []) ∧ brand r = strip (nth 1 m []) ∧
  product r = strip (nth 2 m []) ∧ price r = strip (nth 3 m []) ∧
  unit r = strip (nth 4 m []) ∧ purity r = strip (nth 5 m []) ∧
  craft_fee r = strip (nth 6 m []) ∧ trend r = strip (nth 7 m []).

(** The candidates of both patterns, pooled as the first loop reads them. *)
Definition pool (html_text : str) : list (list str) :=
  findall pattern html_text ++ findall pattern2 html_text.

(** ** Documents made of well-formed rows

    The two markup shapes of a row, and the text of a table whose rows
    have eight cells each. *)

Inductive shape : Type := Bare | Wrapped.

#[global] Instance shape_eq_dec : EqDecision shape.
Proof. solve_decision. Defined.

Record table_row : Type := TableRow {
  row_shape : shape;
  td_attrs : str;        (* what follows [<td] up to [>] *)
  div_attrs : str;       (* what follows [<div] up to [>] *)
  gap : str;             (* the white space after every cell *)
  fields : list str      (* the texts of the cells *)
}.

Definition s_tr : str := Eval cbv in py "<tr>".
Definition s_tr_end : str := Eval cbv in py "</tr>".
Definition s_table : str := Eval cbv in py "<table>".
Definition s_table_end : str := Eval cbv in py "</table>".

Definition cell_text (sh : shape) (a b f : str) : str :=
  match sh with
  | Bare => s_td ++ a ++ s_gt ++ f ++ s_td_end
  | Wrapped => s_td ++ a ++ s_gt ++ s_div ++ b ++ s_gt ++ f ++ s_div_td_end
  end.

Definition row_text (r : table_row) : str :=
  s_tr
  ++ concat ((λ f, cell_text (row_shape r) (td_attrs r) (div_attrs r) f ++ gap r)
               <$> fields r)
  ++ s_tr_end.

Definition document (rows : list table_row) : str :=
  s_table ++ concat (row_text <$> rows) ++ s_table_end.

(** A pattern that begins with the literal [<td]. *)
Definition begins_td (r : regex) : Prop :=
  ∀ s, drop_literal s_td s = None → match_here r s = None.



(** A row is well formed: eight cells, no markup character inside the
    attributes or the cell texts, white space between the cells. *)
Definition well_formed (r : table_row) : Prop :=
  length (fields r) = 8%nat ∧
  Forall (λ f, c_lt ∉ f) (fields r) ∧
  (c_lt ∉ td_attrs r) ∧ (c_gt ∉ td_attrs r) ∧
  (c_lt ∉ div_attrs r) ∧ (c_gt ∉ div_attrs r) ∧
  Forall (λ c, isspace c = true) (gap r).

(** The number of occurrences of [k] in [l]. *)
Definition count_of (k : str) (l : list str) : nat :=
  length (filter (λ x, x = k) l).

(** The text of one percentage, without the exception. *)
Definition percent_text (v total_records : nat) : str :=
  format_1f (float_of_nat v / float_of_nat total_records * 100)%float ++ py "%".

(** ** Sample data *)

(** A clock that always reads the same instant. *)
Definition sample_now : clock := λ _, py "2025-09-17T10:00:00".

(** The configuration of 首饰黄金. *)
Definition jewelry_config : config :=
  {| name := py "首饰黄金";
     filename_prefix := py "jewelry_gold";
     url_params := [("pp"%string, 0%Z); ("pz"%string, 15%Z)];
     description := py "各大品牌首饰黄金价格数据" |}.

(** The row of the specification's example. *)
Definition sample_row : list str :=
  [py "2025-09-17"; py "周大福"; py "足金"; py "823.00"; py "元/克"; py "999";
   py "无"; py "涨"].

(** The record of that row. *)
Definition sample_record : gold_record :=
  {| date := py "2025-09-17"; brand := py "周大福"; product := py "足金";
     price := py "823.00"; price_value := Some (82300 # 100)%Q;
     unit := py "元/克"; purity := py "999"; craft_fee := py "无";
     trend := py "涨"; gold_type_name := py "首饰黄金";
     gold_type_code := py "jewelry"; source := py "新浪财经";
     parsed_at := py "2025-09-17T10:00:00" |}.

(** A row whose price text holds no digit. *)
Definition unpriced_row : list str :=
  [py "2025-09-17"; py "周大福"; py "足金"; py " 面议 "; py "元/克"; py "999";
   py "无"; py "平"].

(** The five required fields of a record are not empty. *)
Definition required_present (r : gold_record) : Prop :=
  date r ≠ [] ∧ brand r ≠ [] ∧ product r ≠ [] ∧ price r ≠ [] ∧ unit r ≠ [].

#[global] Instance well_formed_dec r : Decision (well_formed r).
Proof. unfold well_formed. apply _. Defined.





(** A record with a given price value and trend. *)
Definition quoted (p : option Q) (tr : str) : gold_record :=
  {| date := py "2025-09-17"; brand := py "周大福"; product := py "足金";
     price := py "-"; price_value := p; unit := py "元/克"; purity := py "999";
     craft_fee := py "无"; trend := tr; gold_type_name := py "首饰黄金";
     gold_type_code := py "jewelry"; source := py "新浪财经";
     parsed_at := py "2025-09-17T10:00:00" |}.

(** Four prices and a record without price; the trends of the
    specification's example on the first four. *)
Definition sample_records : list gold_record :=
  [quoted (Some 4%Q) (py "涨"); quoted (Some 1%Q) (py "涨"); quoted None (py "跌");
   quoted (Some 3%Q) (py "跌"); quoted (Some 2%Q) (py "平")].


(** Two rows with the same key and another purity. *)
Definition purity_rows : list table_row :=
  [ {| row_shape := Bare; td_attrs := []; div_attrs := []; gap := [];
       fields := [py "2025-09-17"; py "周大福"; py "足金"; py "823.00"; py "元/克";
                  py "999"; py "无"; py "涨"] |};
    {| row_shape := Bare; td_attrs := []; div_attrs := []; gap := [];
       fields := [py "2025-09-17"; py "周大福"; py "足金"; py "823.00"; py "元/克";
                  py "990"; py "无"; py "涨"] |} ].

(** ** Definitions used to state the properties of the frequency tables *)

(** The distinct elements of a list, in the order of their first
    occurrence. *)
Fixpoint distinct (l : list str) : list str :=
  match l with
  | [] => []
  | x :: l' => x :: filter (λ y, y ≠ x) (distinct l')
  end.

(** The sum of the counts of a table. *)
Definition total_count (c : list (str * nat)) : nat := sum_list_with snd c.

(** The entries of a table that have the count [n]. *)
Definition with_count (n : nat) (c : list (str * nat)) : list (str * nat) :=
  filter (λ kv, kv.2 = n) c.


(** A frequency table of [xs], as [Counter(xs).most_common()] makes it: each
    distinct element once with the number of its occurrences, the larger
    counts first, and the elements of one count in the order in which they
    first occur in [xs]. *)
Definition frequency_table (xs : list str) (table : list (str * nat)) : Prop :=
  NoDup (fst <$> table) ∧
  (∀ k n, (k, n) ∈ table ↔ k ∈ xs ∧ n = count_of k xs) ∧
  Sorted (λ a b : str * nat, (b.2 ≤ a.2)%nat) table ∧
  ∀ n, fst <$> with_count n table = filter (λ k, count_of k xs = n) (distinct xs).

(** How many prices are at most, and at least, [m]. *)
Definition number_at_most (m : Q) (prices : list Q) : nat :=
  length (filter (λ p, Qle_bool p m = true) prices).

Definition number_at_least (m : Q) (prices : list Q) : nat :=
  length (filter (λ p, Qle_bool m p = true) prices).


(** ** Definitions used to state the properties of the texts *)

(** [needle in hay]: the text [needle] occurs in [hay]. *)
Fixpoint occurs (needle hay : str) : bool :=
  match drop_literal needle hay with
  | Some _ => true
  | None =>
      match hay with
      | [] => false
      | _ :: hay' => occurs needle hay'
      end
  end.

(** A text without the start of a cell. *)
Definition plain_text : str := py "<html><body><p>no table</p><table></table></body></html>".


(** ** File names

    [datetime.now().strftime("%Y%m%d_%H%M%S")]: a reading of the clock is
    its year, month, day, hour, minute and second, and each of them is
    written as a decimal numeral filled with zeros up to its width. *)
Record datetime : Type := Datetime {
  year : nat;
  month : nat;
  day : nat;
  hour : nat;
  minute : nat;
  second : nat
}.

(** The successive readings of [datetime.now()] by [get_filename]. *)
Definition calendar : Type := nat → datetime.

Definition c_zero : char := Eval cbv in ch "0".
Definition c_underscore : char := Eval cbv in ch "_".

Definition zfill (width : nat) (s : str) : str :=
  replicate (width - length s) c_zero ++ s.

Definition decimal (width n : nat) : str := zfill width (digits_of (Z.of_nat n)).

Definition strftime (d : datetime) : str :=
  decimal 4 (year d) ++ decimal 2 (month d) ++ decimal 2 (day d)
  ++ [c_underscore]
  ++ decimal 2 (hour d) ++ decimal 2 (minute d) ++ decimal 2 (second d).

Definition s_latest : str := Eval cbv in py "_latest.".
Definition s_json : str := Eval cbv in py "json".
Definition s_xlsx : str := Eval cbv in py "xlsx".
Definition s_dot_json : str := Eval cbv in py ".json".
Definition s_analysis_json : str := Eval cbv in py "_analysis.json".

(** [GoldDataConfig.get_filename(gold_type, file_type, timestamp)], where
    [cal t] is the reading of the clock that a name with a time stamp
    takes. *)
Definition get_filename (cal : calendar) (t : nat) (gold_type : category_id)
    (file_type : str) (timestamp : bool) : result str :=
  config ← GoldDataConfig.get_config gold_type;
  let prefix := filename_prefix config in
  if timestamp then
    let time_str := strftime (cal t) in
    Ok (prefix ++ [c_underscore] ++ time_str ++ [c_point] ++ file_type)
  else Ok (prefix ++ s_latest ++ file_type).

(** [s.replace(old, new)]: every occurrence of [old] that does not overlap
    an earlier one, from the left; [skip] counts the characters still
    covered by the occurrence just replaced.  With the empty [old], [new]
    goes in front of every character and at the end. *)
Fixpoint replace_from (old new s : str) (skip : nat) : str :=
  match s with
  | [] => []
  | c :: s' =>
      match skip with
      | S n => replace_from old new s' n
      | O =>
          match drop_literal old s with
          | Some _ => new ++ replace_from old new s' (length old - 1)
          | None => c :: replace_from old new s' 0
          end
      end
  end.

Definition str_replace (old new s : str) : str :=
  match old with
  | [] => new ++ flat_map (λ c, c :: new) s
  | _ :: _ => replace_from old new s 0
  end.

(** ** Files

    What a file holds is the value that was written to it: a JSON document
    is the list of records or the analysis that [json.dump] was given, and
    [json.load] gives it back; a workbook is the table that [to_excel]
    wrote.  A directory maps the names of its files to what they hold.
    Printing is left out, and so are failures of the file system. *)
Inductive json_document : Type :=
| RecordsDoc (gold_data : list gold_record)
| AnalysisDoc (a : analysis).

Inductive content : Type :=
| Json (d : json_document)
| Workbook (gold_data : list gold_record).

Definition directory : Type := gmap str content.

(** [save_data(gold_data, analysis, gold_type)] on the working directory.
    The names are made first, those with a time stamp from two readings of
    the clock; [engine] tells whether [to_excel] finds its engine, the
    [ImportError] of which is the one exception that is caught. *)
Definition save_data (cal : calendar) (t : nat) (engine : bool)
    (gold_data : list gold_record) (a : analysis) (gold_type : category_id)
    (cwd : directory) : result directory :=
  json_filename ← get_filename cal t gold_type s_json false;
  latest ← get_filename cal t gold_type s_json false;
  let analysis_filename := str_replace s_dot_json s_analysis_json latest in
  excel_filename ← get_filename cal t gold_type s_xlsx false;
  json_filename_ts ← get_filename cal t gold_type s_json true;
  stamped ← get_filename cal (S t) gold_type s_json true;
  let analysis_filename_ts := str_replace s_dot_json s_analysis_json stamped in
  let cwd := <[json_filename := Json (RecordsDoc gold_data)]> cwd in
  let cwd := <[json_filename_ts := Json (RecordsDoc gold_data)]> cwd in
  let cwd := <[analysis_filename := Json (AnalysisDoc a)]> cwd in
  let cwd := <[analysis_filename_ts := Json (AnalysisDoc a)]> cwd in
  Ok (if engine then <[excel_filename := Workbook gold_data]> cwd else cwd).






(** [for gold_type in GoldType] *)
Definition GoldType_members : list GoldType := [JEWELRY; PHYSICAL; GOLD_BAR].

(** The methods of [GoldDataManager]; the directory is what [self.data_dir]
    holds. *)
Module GoldDataManager.

(** [_save_data(gold_data, analysis, gold_type)] *)
Definition _save_data (cal : calendar) (t : nat) (engine : bool)
    (gold_data : list gold_record) (a : analysis) (gold_type : category_id)
    (data_dir : directory) : result directory :=
  json_file ← get_filename cal t gold_type s_json false;
  latest ← get_filename cal t gold_type s_json false;
  let analysis_file := str_replace s_dot_json s_analysis_json latest in
  excel_file ← get_filename cal t gold_type s_xlsx false;
  json_file_ts ← get_filename cal t gold_type s_json true;
  stamped ← get_filename cal (S t) gold_type s_json true;
  let analysis_file_ts := str_replace s_dot_json s_analysis_json stamped in
  let data_dir := <[json_file := Json (RecordsDoc gold_data)]> data_dir in
  let data_dir := <[json_file_ts := Json (RecordsDoc gold_data)]> data_dir in
  let data_dir := <[analysis_file := Json (AnalysisDoc a)]> data_dir in
  let data_dir := <[analysis_file_ts := Json (AnalysisDoc a)]> data_dir in
  Ok (if engine then <[excel_file := Workbook gold_data]> data_dir else data_dir).

(** [load_data(gold_type)]: the document of the latest file, [None] when
    there is no such file and when the file is no JSON document. *)
Definition load_data (cal : calendar) (t : nat) (data_dir : directory)
    (gold_type : category_id) : result (option json_document) :=
  json_file ← get_filename cal t gold_type s_json false;
  Ok (match data_dir !! json_file with
      | Some (Json d) => Some d
      | Some (Workbook _) => None
      | None => None
      end).








End GoldDataManager.


(** ** Definitions used to state the properties of the files *)

(** The characters of a time stamp: the ten digits and the underscore. *)
Definition stamp_char (c : char) : Prop := 48 ≤ c ≤ 57 ∨ c = c_underscore.

(** The five names under which a category with the prefix [p] is saved,
    the two with a time stamp from the readings [d1] and [d2]. *)
Definition latest_json (p : str) : str := p ++ py "_latest.json".
Definition stamped_json (p : str) (d : datetime) : str :=
  p ++ py "_" ++ strftime d ++ py ".json".
Definition latest_analysis (p : str) : str := p ++ py "_latest_analysis.json".
Definition stamped_analysis (p : str) (d : datetime) : str :=
  p ++ py "_" ++ strftime d ++ py "_analysis.json".
Definition latest_xlsx (p : str) : str := p ++ py "_latest.xlsx".

Definition saved_names (p : str) (d1 d2 : datetime) : list str :=
  [latest_json p; stamped_json p d1; latest_analysis p; stamped_analysis p d2;
   latest_xlsx p].

(** The prefix of the files of a member. *)
Definition prefix_of (g : GoldType) : str :=
  match g with
  | JEWELRY => py "jewelry_gold"
  | PHYSICAL => py "physical_gold"
  | GOLD_BAR => py "gold_bar"
  end.

(** The prefix that [get_config] gives to a category. *)
Definition prefix_for (k : category_id) : str :=
  match k with
  | Member g => prefix_of g
  | Foreign _ => prefix_of JEWELRY
  end.

(** A directory after the five writes of a save. *)
Definition after_save (engine : bool) (gold_data : list gold_record) (a : analysis)
    (p : str) (d1 d2 : datetime) (dir : directory) : directory :=
  let dir := <[latest_json p := Json (RecordsDoc gold_data)]> dir in
  let dir := <[stamped_json p d1 := Json (RecordsDoc gold_data)]> dir in
  let dir := <[latest_analysis p := Json (AnalysisDoc a)]> dir in
  let dir := <[stamped_analysis p d2 := Json (AnalysisDoc a)]> dir in
  if engine then <[latest_xlsx p := Workbook gold_data]> dir else dir.

(** A calendar for the examples: one second from a reading to the next. *)
Definition sample_calendar : calendar :=
  λ t, {| year := 2025; month := 9; day := 17; hour := 10; minute := 0; second := t |}.



(** No latest file of a member holds the sections of an analysis. *)
Definition holds_sections (dir : directory) (g : GoldType) : bool :=
  match dir !! latest_json (prefix_of g) with
  | Some (Json (AnalysisDoc (Sections _))) => true
  | _ => false
  end.

Definition latest_files_hold_records (dir : directory) : bool :=
  forallb (λ g, negb (holds_sections dir g)) GoldType_members.




(** A directory with the records of one category, one of them at the
    price zero. *)
Definition zero_price_records : list gold_record :=
  [quoted (Some 4%Q) (py "涨"); quoted (Some 0%Q) (py "跌"); quoted None (py "平")].

Definition sample_directory : directory :=
  <[latest_json (prefix_of JEWELRY) := Json (RecordsDoc zero_price_records)]> ∅.


(** * Properties *)

(** ** The matcher *)

Lemma drop_literal_Some l s s' : drop_literal l s = Some s' → s = l ++ s'.
Proof.
  revert s. induction l as [|x l IH]; intros [|c s] H; simplify_eq/=; try done.
  destruct (N.eqb_spec c x); [|done]. subst. f_equal. by apply IH.
Qed.


Section MatcherFacts.
Context {A : Type}.
Implicit Types (k : str → list str → option A) (x : A).

Lemma orelse_Some (o1 o2 : option A) x :
  orelse o1 o2 = Some x → o1 = Some x ∨ (o1 = None ∧ o2 = Some x).
Proof. destruct o1; naive_solver. Qed.

Lemma star_inv a (k1 : str → option A) s x :
  star a k1 s = Some x → ∃ s', s' `suffix_of` s ∧ k1 s' = Some x.
Proof.
  induction s as [|c s IH]; simpl; intros H.
  - by exists [].
  - destruct (atom_ok a c).
    + apply orelse_Some in H as [H|[_ H]].
      * destruct (IH H) as (s' & Hs & Hk). exists s'. split; [|done].
        by apply suffix_cons_r.
      * by exists (c :: s).
    + by exists (c :: s).
Qed.

Lemma match_re_inv r s g k x :
  match_re r s g k = Some x →
  ∃ s' new, k s' (g ++ new) = Some x ∧ s' `suffix_of` s ∧ length new = ngroups r.
Proof.
  revert s g k x. induction r as [l|a|a|a|r IH|r1 IH1 r2 IH2]; intros s g k x H; simpl in H.
  - destruct (drop_literal l s) as [s'|] eqn:E; [|done].
    exists s', []. rewrite app_nil_r. split_and!; [done| |done].
    apply drop_literal_Some in E as ->. by apply suffix_app_r.
  - apply star_inv in H as (s' & ? & ?). exists s', []. by rewrite app_nil_r.
  - destruct s as [|c s]; [done|]. destruct (atom_ok a c); [|done].
    apply star_inv in H as (s' & ? & ?). exists s', []. rewrite app_nil_r.
    split_and!; [done| |done]. by apply suffix_cons_r.
  - assert (k s g = Some x ∨ ∃ c s', s = c :: s' ∧ k s' g = Some x) as [H'|(c & s' & -> & H')].
    { destruct s as [|c s]; [by left|]. destruct (atom_ok a c); [|by left].
      apply orelse_Some in H as [H|[_ H]]; [right|left]; eauto. }
    + exists s, []. by rewrite app_nil_r.
    + exists s', []. rewrite app_nil_r. split_and!; [done| |done]. by apply suffix_cons_r.
  - apply IH in H as (s' & new & H & Hs & Hn).
    exists s', (new ++ [take (length s - length s') s]).
    rewrite app_assoc. split_and!; [done|done|]. rewrite length_app; simpl; lia.
  - apply IH1 in H as (s1 & new1 & H & Hs1 & Hn1).
    apply IH2 in H as (s2 & new2 & H & Hs2 & Hn2).
    exists s2, (new1 ++ new2). rewrite app_assoc. split_and!; [done| |].
    + by etrans.
    + rewrite length_app; simpl; lia.
Qed.
End MatcherFacts.

Lemma match_here_inv r s g rest :
  match_here r s = Some (g, rest) → length g = ngroups r ∧ rest `suffix_of` s.
Proof.
  intros H. apply match_re_inv in H as (s' & new & H & ? & ?). by simplify_eq/=.
Qed.

Lemma findall_from_length r s n g :
  g ∈ findall_from r s n → length g = ngroups r.
Proof.
  revert n. induction s as [|c s IH]; intros n; simpl.
  - destruct n; [|by intros ?%elem_of_nil].
    destruct (match_here r []) as [[g' rest]|] eqn:E; [|by intros ?%elem_of_nil].
    intros ->%list_elem_of_singleton. by apply match_here_inv in E as [? _].
  - destruct n as [|n]; [|by apply IH].
    destruct (match_here r (c :: s)) as [[g' rest]|] eqn:E; [|by apply IH].
    intros [->|?]%elem_of_cons; [|by eapply IH].
    by apply match_here_inv in E as [? _].
Qed.

Lemma findall_length r s g : g ∈ findall r s → length g = ngroups r.
Proof. apply findall_from_length. Qed.

Section Star.
Context {A : Type}.


(** When the continuation accepts the stop after the longest run, the
    star takes the longest run. *)
Lemma star_longest a (k : str → option A) u rest x :
  Forall (λ c, atom_ok a c = true) u →
  head_ok a rest = false →
  k rest = Some x →
  star a k (u ++ rest) = Some x.
Proof.
  intros Hu Hrest Hk. induction Hu as [|c u Hc Hu IH]; simpl.
  - destruct rest as [|c rest]; [done|]. simpl in *. by rewrite Hrest.
  - by rewrite Hc, IH.
Qed.
End Star.

Lemma span_digits_spec s d r :
  span_digits s = (d, r) →
  s = d ++ r ∧ Forall (λ c, isdecimal c = true) d ∧ head_ok Digit r = false.
Proof.
  revert d r. induction s as [|c s IH]; intros d r H; simpl in H.
  - by simplify_eq.
  - destruct (isdecimal c) eqn:Hc.
    + destruct (span_digits s) as [d' r'] eqn:E. simplify_eq.
      destruct (IH _ _ eq_refl) as (-> & ? & ?). split_and!; [done| |done].
      by constructor.
    + simplify_eq. split_and!; [done|constructor|done].
  Qed.

Lemma point_not_decimal : isdecimal c_point = false.
Proof. reflexivity. Qed.

Lemma take_consumed (u tl : str) : take (length (u ++ tl) - length tl) (u ++ tl) = u.
Proof.
  replace (length (u ++ tl) - length tl)%nat with (length u) by (rewrite length_app; lia).
  apply take_app_length.
Qed.

Section Equations.
Context {A : Type}.
Implicit Types (k : str → list str → option A).

Lemma match_re_lit l s g k :
  match_re (Lit l) s g k =
    match drop_literal l s with Some s' => k s' g | None => None end.
Proof. reflexivity. Qed.


Lemma match_re_group r s g k :
  match_re (Group r) s g k =
    match_re r s g (λ s' g', k s' (g' ++ [take (length s - length s') s])).
Proof. reflexivity. Qed.

Lemma match_re_cat r1 r2 s g k :
  match_re (r1 ⋅ r2) s g k = match_re r1 s g (λ s' g', match_re r2 s' g' k).
Proof. reflexivity. Qed.
End Equations.

Lemma star_digits {A} (k : str → option A) s x :
  k (span_digits s).2 = Some x → star Digit k s = Some x.
Proof.
  destruct (span_digits s) as [d r] eqn:E. simpl.
  apply span_digits_spec in E as (-> & Hd & Hr). by apply star_longest.
Qed.

Lemma star_no_digit {A} (k : str → option A) s :
  head_ok Digit s = false → star Digit k s = k s.
Proof. destruct s as [|c s]; [done|]. simpl. by intros ->. Qed.

Lemma fraction_match {A} (k : str → list str → option A) g r1 x :
  head_ok Digit r1 = false →
  k (after_fraction r1) g = Some x →
  match_re (Opt (Chr c_point) ⋅ Star Digit) r1 g k = Some x.
Proof.
  intros Hr1 Hk. destruct r1 as [|p r2]; [done|].
  cbn [match_re atom_ok]. unfold after_fraction in Hk.
  destruct (p =? c_point).
  - by rewrite (star_digits _ r2 x).
  - by rewrite star_no_digit.
Qed.

Lemma number_match {A} (k : str → list str → option A) g c s x :
  isdecimal c = true →
  k (after_fraction (span_digits s).2) g = Some x →
  match_re (Plus Digit ⋅ Opt (Chr c_point) ⋅ Star Digit) (c :: s) g k = Some x.
Proof.
  intros Hc Hk. cbn [match_re atom_ok]. rewrite Hc.
  apply star_digits. apply fraction_match; [|done].
  destruct (span_digits s) as [d r] eqn:E.
  by apply span_digits_spec in E as (_ & _ & ?).
Qed.

Lemma number_at_cons c s :
  number_at (c :: s) =
    if isdecimal c then
      let r1 := (span_digits s).2 in
      let r3 := after_fraction r1 in
      Some (take (length (c :: s) - length r3) (c :: s), r3)
    else None.
Proof.
  unfold number_at. cbn [span_digits]. destruct (isdecimal c) eqn:Hc; [|done].
  destruct (span_digits s) as [d1 r1] eqn:E1. cbn [snd].
  apply span_digits_spec in E1 as (-> & Hd1 & Hr1). cbv zeta.
  destruct r1 as [|p r2]; cbn [after_fraction].
  - rewrite app_nil_r. rewrite <- (app_nil_r (c :: d1)) at 2 3.
    by rewrite take_consumed.
  - destruct (p =? c_point) eqn:Hp.
    + destruct (span_digits r2) as [d2 r3] eqn:E2. cbn [snd].
      apply span_digits_spec in E2 as (-> & Hd2 & Hr3).
      assert (c :: d1 ++ p :: d2 ++ r3 = ((c :: d1) ++ p :: d2) ++ r3) as ->.
      { by rewrite <- app_assoc. }
      by rewrite take_consumed.
    + assert (c :: d1 ++ p :: r2 = (c :: d1) ++ p :: r2) as -> by done.
      by rewrite take_consumed.
Qed.

Lemma match_here_price s :
  match_here price_pattern s =
    match number_at s with
    | Some (tok, rest) => Some ([tok], rest)
    | None => None
    end.
Proof.
  destruct s as [|c s]; [done|]. rewrite number_at_cons.
  destruct (isdecimal c) eqn:Hc.
  - unfold match_here, price_pattern. rewrite match_re_group.
    by apply number_match.
  - unfold match_here, price_pattern. cbn [match_re atom_ok]. by rewrite Hc.
Qed.

Lemma search_price s :
  fst <$> search price_pattern s = (λ tok, [tok]) <$> first_number s.
Proof.
  induction s as [|c s IH].
  - done.
  - cbn [search first_number]. rewrite match_here_price.
    destruct (number_at (c :: s)) as [[tok rest]|]; [done|]. apply IH.
Qed.

(** ** Price tokens and [float] *)

Lemma number_at_token s tok rest : number_at s = Some (tok, rest) → number_token tok.
Proof.
  unfold number_at. destruct (span_digits s) as [d1 r1] eqn:E1.
  apply span_digits_spec in E1 as (-> & Hd1 & Hr1).
  destruct d1 as [|c d1]; [done|]. intros H. exists (c :: d1). split; [done|]. split; [done|].
  destruct r1 as [|p r2]; [left; by simplify_eq|].
  destruct (p =? c_point) eqn:Hp.
  - destruct (span_digits r2) as [d2 r3] eqn:E2.
    apply span_digits_spec in E2 as (-> & Hd2 & _).
    apply N.eqb_eq in Hp as ->. right. exists d2. by simplify_eq.
  - left. by simplify_eq.
Qed.

Lemma first_number_token s tok : first_number s = Some tok → number_token tok.
Proof.
  induction s as [|c s IH]; cbn [first_number].
  - done.
  - destruct (number_at (c :: s)) as [[tok' rest]|] eqn:E; [|done].
    intros ?; simplify_eq. by eapply number_at_token.
Qed.

Lemma first_number_None s :
  first_number s = None ↔ Forall (λ c, isdecimal c = false) s.
Proof.
  induction s as [|c s IH]; cbn [first_number].
  - split; [constructor|done].
  - rewrite number_at_cons. destruct (isdecimal c) eqn:Hc.
    + split; [done|]. intros H. apply Forall_cons in H as [H _]. congruence.
    + rewrite IH. split; [by constructor|]. by intros [_ ?]%Forall_cons.
Qed.

Lemma first_number_Some s :
  is_Some (first_number s) ↔ Exists (λ c, isdecimal c = true) s.
Proof.
  induction s as [|c s IH]; cbn [first_number].
  - split; [by intros [? ?]|by intros ?%Exists_nil].
  - rewrite number_at_cons, Exists_cons. destruct (isdecimal c) eqn:Hc.
    + split; [by left|by eexists].
    + rewrite IH. split; [by right|]. intros [?|?]; [congruence|done].
Qed.

Lemma decimal_not_point c : isdecimal c = true → (c =? c_point) = false.
Proof.
  intros H. destruct (N.eqb_spec c c_point) as [->|]; [|done].
  by rewrite point_not_decimal in H.
Qed.

Lemma split_point_digits d :
  Forall (λ c, isdecimal c = true) d → split_point d = (d, None).
Proof.
  induction 1 as [|c d Hc _ IH]; [done|].
  simpl. by rewrite (decimal_not_point c Hc), IH.
Qed.

Lemma split_point_fraction d1 d2 :
  Forall (λ c, isdecimal c = true) d1 →
  split_point (d1 ++ c_point :: d2) = (d1, Some d2).
Proof.
  induction 1 as [|c d Hc _ IH]; [done|].
  simpl. by rewrite (decimal_not_point c Hc), IH.
Qed.

Lemma digits_value_Some acc d :
  Forall (λ c, isdecimal c = true) d → is_Some (digits_value acc d).
Proof.
  intros H. revert acc. induction H as [|c d Hc _ IH]; intros acc; simpl.
  - by eexists.
  - unfold isdecimal in Hc. destruct (decimal_value c); [apply IH|done].
Qed.

Lemma py_float_digits s i f n :
  split_point s = (i, f) →
  i ≠ [] →
  digits_value 0 (i ++ default [] f) = Some n →
  py_float s = Ok (Z.of_N n # pow10 (length (default [] f))).
Proof.
  intros Hs Hi Hn. unfold py_float. rewrite Hs.
  destruct (i ++ default [] f) as [|c ds] eqn:E.
  - by destruct i.
  - by rewrite Hn.
Qed.

(** [float] accepts every token of the price pattern, with a value that is
    not negative. *)
Lemma py_float_token tok :
  number_token tok → ∃ v, py_float tok = Ok v ∧ (0 <= v)%Q.
Proof.
  intros (d1 & Hne & Hd1 & [->|(d2 & Hd2 & ->)]).
  - destruct (digits_value_Some 0 (d1 ++ default [] None)) as [n Hn].
    { simpl. by rewrite app_nil_r. }
    erewrite py_float_digits; [|by apply split_point_digits|done|done].
    eexists. split; [done|]. unfold Qle. simpl. lia.
  - destruct (digits_value_Some 0 (d1 ++ default [] (Some d2))) as [n Hn].
    { simpl. by apply Forall_app. }
    erewrite py_float_digits; [|by apply split_point_fraction|done|done].
    eexists. split; [done|]. unfold Qle. simpl. lia.
Qed.

(** ** Normalization of one row *)

Lemma price_step_spec p :
  ∃ pv, price_step p = Ok pv ∧
    match first_number p with
    | Some tok => ∃ v, py_float tok = Ok v ∧ pv = Some v ∧ (0 <= v)%Q
    | None => pv = None
    end.
Proof.
  unfold price_step. pose proof (search_price p) as H.
  destruct (first_number p) as [tok|] eqn:E.
  - destruct (search price_pattern p) as [[g rest]|]; [|done].
    simpl in H. simplify_eq.
    destruct (py_float_token tok) as (v & Hv & ?); [by eapply first_number_token|].
    exists (Some v). rewrite Hv. split; [done|]. by exists v.
  - destruct (search price_pattern p) as [[g rest]|]; [done|]. by exists None.
Qed.

Lemma normalize_row_eight now t cfg k f1 f2 f3 f4 f5 f6 f7 f8 :
  normalize_row now t cfg k [f1; f2; f3; f4; f5; f6; f7; f8] =
    if required (strip f1) (strip f2) (strip f3) (strip f4) (strip f5) then
      pv ← price_step (strip f4);
      code ← value k;
      Ok (Some {| date := strip f1; brand := strip f2; product := strip f3;
                  price := strip f4; price_value := pv; unit := strip f5;
                  purity := strip f6; craft_fee := strip f7; trend := strip f8;
                  gold_type_name := name cfg; gold_type_code := code;
                  source := py "新浪财经"; parsed_at := now t |})
    else Ok None.
Proof. reflexivity. Qed.

Lemma truthy_nonempty (s : str) : truthy s = true ↔ s ≠ [].
Proof. by destruct s. Qed.

Lemma required_spec a b c d e :
  required a b c d e = true ↔ a ≠ [] ∧ b ≠ [] ∧ c ≠ [] ∧ d ≠ [] ∧ e ≠ [].
Proof.
  unfold required. rewrite !andb_true_iff, !truthy_nonempty. tauto.
Qed.

Lemma value_member g : ∃ code, value (Member g) = Ok code.
Proof. destruct g; by eexists. Qed.

(** A row is taken by the second loop only when it has at least 8 groups. *)
Lemma normalize_row_Some now t cfg k m rec :
  normalize_row now t cfg k m = Ok (Some rec) →
  ∃ f1 f2 f3 f4 f5 f6 f7 f8 tl,
    m = f1 :: f2 :: f3 :: f4 :: f5 :: f6 :: f7 :: f8 :: tl ∧
    normalize_row now t cfg k [f1; f2; f3; f4; f5; f6; f7; f8] = Ok (Some rec).
Proof.
  intros H.
  destruct m as [|f1 [|f2 [|f3 [|f4 [|f5 [|f6 [|f7 [|f8 tl]]]]]]]]; try done.
  exists f1, f2, f3, f4, f5, f6, f7, f8, tl. split; [done|].
  rewrite <- H. reflexivity.
Qed.

(** ** The first loop *)

Lemma key_of_row_key (m : list str) : (4 ≤ length m)%nat → key_of m = Ok (row_key m).
Proof.
  destruct m as [|f0 [|f1 [|f2 [|f3 tl]]]]; simpl; try lia. done.
Qed.

Lemma dedup_loop_spec (pre rest : list (list str)) (seen : gset key)
    (acc : list (list str)) :
  Forall (λ m, length m = 8%nat) rest →
  (∀ k, k ∈ seen ↔ k ∈ row_key <$> pre) →
  dedup_loop rest seen acc =
    Ok (acc ++ omap (λ im, if is_first (pre ++ rest) im.1 im.2 then Some im.2 else None)
                    (zip (seq (length pre) (length rest)) rest)).
Proof.
  intros Hlen. revert pre seen acc.
  induction Hlen as [|m rest Hm Hlen IH]; intros pre seen acc Hseen.
  - simpl. by rewrite app_nil_r.
  - cbn [dedup_loop]. rewrite Hm. cbn [Nat.leb].
    rewrite key_of_row_key by lia. cbn [mbind result_bind].
    cbn [length seq zip zip_with omap list_omap fst snd].
    assert (take (length pre) (pre ++ m :: rest) = pre) as Htake
      by (by rewrite take_app_length).
    assert ((pre ++ [m]) ++ rest = pre ++ m :: rest) as Happ
      by (by rewrite <- app_assoc).
    specialize (IH (pre ++ [m])). rewrite Happ, length_app in IH.
    cbn [length] in IH. rewrite Nat.add_1_r in IH.
    unfold is_first at 1. rewrite Htake.
    destruct (decide (row_key m ∈ seen)) as [Hin|Hnin].
    + rewrite bool_decide_eq_false_2 by (rewrite <- Hseen; tauto).
      apply IH. intros k. rewrite fmap_app, elem_of_app, <- Hseen.
      simpl. rewrite list_elem_of_singleton.
      split; [by left|]. by intros [?| ->].
    + rewrite bool_decide_eq_true_2 by (by rewrite <- Hseen).
      rewrite (IH ({[row_key m]} ∪ seen) (acc ++ [m])).
      * by rewrite <- app_assoc.
      * intros k. rewrite fmap_app, elem_of_app, <- Hseen, elem_of_union, elem_of_singleton.
        simpl. rewrite list_elem_of_singleton. tauto.
Qed.

Lemma dedup_loop_first_seen (pool : list (list str)) :
  Forall (λ m, length m = 8%nat) pool →
  dedup_loop pool ∅ [] = Ok (first_seen pool).
Proof.
  intros H. rewrite (dedup_loop_spec [] pool ∅ []); [done|done|].
  intros k. simpl. rewrite elem_of_nil. set_solver.
Qed.


Lemma first_seen_lookup (pool : list (list str)) m :
  m ∈ first_seen pool ↔
  ∃ i, pool !! i = Some m ∧ ∀ j m', (j < i)%nat → pool !! j = Some m' → row_key m' ≠ row_key m.
Proof.
  unfold first_seen. rewrite list_elem_of_omap. split.
  - intros ([i m0] & Hin & Hsome). simpl in Hsome.
    destruct (is_first pool i m0) eqn:Hf; [|done]. simplify_eq.
    apply list_elem_of_lookup in Hin as [n Hn].
    apply lookup_zip_with_Some in Hn as (i' & m1 & ? & Hi & Hm). simplify_eq.
    apply lookup_seq in Hi as [-> _]. exists n. split; [done|].
    intros j m' Hj Hm' Heq. apply bool_decide_eq_true_1 in Hf. apply Hf.
    rewrite <- Heq. apply list_elem_of_fmap. exists m'. split; [done|].
    apply list_elem_of_lookup. exists j. by rewrite lookup_take_lt.
  - intros (i & Hi & Hfirst). exists (i, m). split.
    + apply list_elem_of_lookup. exists i. apply lookup_zip_with_Some.
      exists i, m. split; [done|]. split; [|done].
      apply lookup_seq. split; [done|]. by eapply lookup_lt_Some.
    + simpl. unfold is_first. rewrite bool_decide_eq_true_2; [done|].
      intros (m' & Heq & Hin)%list_elem_of_fmap.
      apply list_elem_of_lookup in Hin as [j Hj].
      apply lookup_take_Some in Hj as [Hj ?]. by eapply Hfirst.
Qed.

Lemma first_seen_from (pool pre rest : list (list str)) :
  pool = pre ++ rest →
  let kept := omap (λ im, if is_first pool im.1 im.2 then Some im.2 else None)
                   (zip (seq (length pre) (length rest)) rest) in
  kept `sublist_of` rest ∧ NoDup (row_key <$> kept) ∧
  ∀ m, m ∈ kept → row_key m ∉ row_key <$> pre.
Proof.
  revert pre. induction rest as [|m rest IH]; intros pre Hp.
  - simpl. split_and!; [done|constructor|]. by intros m ?%elem_of_nil.
  - cbn [length seq zip zip_with omap list_omap fst snd].
    specialize (IH (pre ++ [m])). rewrite length_app in IH.
    cbn [length] in IH. rewrite Nat.add_1_r in IH.
    destruct IH as (Hsub & Hnd & Hfresh); [by rewrite <- app_assoc|].
    assert (∀ m', m' ∈ omap (λ im, if is_first pool im.1 im.2 then Some im.2 else None)
                       (zip (seq (S (length pre)) (length rest)) rest) →
                 row_key m' ≠ row_key m ∧ row_key m' ∉ row_key <$> pre) as Hfresh'.
    { intros m' Hm'. specialize (Hfresh m' Hm').
      rewrite fmap_app, elem_of_app in Hfresh. simpl in Hfresh.
      rewrite list_elem_of_singleton in Hfresh. tauto. }
    subst pool. destruct (is_first (pre ++ m :: rest) (length pre) m) eqn:Hm.
    + unfold is_first in Hm. rewrite take_app_length in Hm.
      apply bool_decide_eq_true_1 in Hm. split_and!.
      * by apply sublist_skip.
      * rewrite fmap_cons. apply NoDup_cons. split; [|done].
        intros (m' & Heq & Hin)%list_elem_of_fmap.
        destruct (Hfresh' m' Hin) as [Hne _]. by rewrite Heq in Hne.
      * intros m' [->|Hin]%elem_of_cons; [done|]. by apply Hfresh'.
    + split_and!; [by apply sublist_cons|done|]. intros m' Hin. by apply Hfresh'.
Qed.

Lemma first_seen_sublist (pool : list (list str)) : first_seen pool `sublist_of` pool.
Proof. by apply (first_seen_from pool [] pool). Qed.

Lemma first_seen_NoDup (pool : list (list str)) : NoDup (row_key <$> first_seen pool).
Proof. by apply (first_seen_from pool [] pool). Qed.

(** ** The second loop *)

Lemma same_fields_stamp s1 s2 r : same_fields (stamp s1 r) (stamp s2 r).
Proof. by repeat split. Qed.

(** The clock only decides the time stamp of the record. *)
Lemma normalize_row_stamp now t cfg k m :
  normalize_row now t cfg k m =
    match normalize_row (λ _, []) 0 cfg k m with
    | Ok (Some r) => Ok (Some (stamp (now t) r))
    | Ok None => Ok None
    | Raise e => Raise e
    end.
Proof.
  unfold normalize_row. destruct (7 <=? length m)%nat; [|done].
  destruct (take 8 m) as [|f1 [|f2 [|f3 [|f4 [|f5 [|f6 [|f7 [|f8 [|f9 tl]]]]]]]]];
    try done.
  fold (price_step (strip f4)).
  destruct (truthy (strip f1) && truthy (strip f2) && truthy (strip f3)
            && truthy (strip f4) && truthy (strip f5)); [|done].
  destruct (price_step (strip f4)) as [pv|e]; [|done].
  cbn [mbind result_bind]. by destruct (value k).
Qed.

Lemma normalize_row_valid now t cfg g (m : list str) :
  length m = 8%nat →
  if row_valid m
  then ∃ r, normalize_row now t cfg (Member g) m = Ok (Some r) ∧
            record_of_row m r ∧ parsed_at r = now t
  else normalize_row now t cfg (Member g) m = Ok None.
Proof.
  intros Hm.
  destruct m as [|f1 [|f2 [|f3 [|f4 [|f5 [|f6 [|f7 [|f8 [|f9 tl]]]]]]]]]; try done.
  rewrite normalize_row_eight. unfold row_valid. cbn [nth].
  destruct (required _ _ _ _ _); [|done].
  destruct (price_step_spec (strip f4)) as (pv & -> & _).
  destruct (value_member g) as [code ->].
  eexists. split; [done|]. by repeat split.
Qed.

Lemma normalize_loop_members now cfg g (ms : list (list str)) t acc :
  Forall (λ m, length m = 8%nat) ms →
  ∃ recs, normalize_loop now cfg (Member g) ms t acc = Ok (acc ++ recs) ∧
          Forall2 record_of_row (filter (λ m, row_valid m = true) ms) recs ∧
          parsed_at <$> recs = now <$> seq t (length recs).
Proof.
  intros Hms. revert t acc. induction Hms as [|m ms Hm _ IH]; intros t acc.
  - exists []. by rewrite app_nil_r.
  - cbn [normalize_loop]. pose proof (normalize_row_valid now t cfg g m Hm) as Hrow.
    rewrite filter_cons. destruct (row_valid m) eqn:Hv.
    + destruct Hrow as (r & -> & Hr & Ht). cbn [mbind result_bind].
      destruct (IH (S t) (acc ++ [r])) as (recs & -> & Hrel & Htime).
      exists (r :: recs). rewrite <- app_assoc. split; [done|].
      rewrite decide_True by done. split; [by constructor|].
      rewrite fmap_cons. cbn [length seq]. rewrite fmap_cons. by rewrite Ht, Htime.
    + rewrite Hrow. cbn [mbind result_bind].
      destruct (IH t acc) as (recs & -> & Hrel & Htime).
      exists recs. rewrite decide_False by done. done.
Qed.

(** What the loop appends comes from the rows, whatever the category. *)
Lemma normalize_loop_inv now cfg k (ms : list (list str)) t acc recs :
  normalize_loop now cfg k ms t acc = Ok recs →
  ∃ new, recs = acc ++ new ∧
    Forall (λ r, ∃ m t', m ∈ ms ∧ normalize_row now t' cfg k m = Ok (Some r)) new.
Proof.
  revert t acc. induction ms as [|m ms IH]; intros t acc H; cbn [normalize_loop] in H.
  - exists []. rewrite app_nil_r. split; [congruence|constructor].
  - destruct (normalize_row now t cfg k m) as [[r|]|e] eqn:E; cbn [mbind result_bind] in H;
      [| |done].
    + apply IH in H as (new & -> & Hnew). exists (r :: new).
      rewrite <- app_assoc. split; [done|]. constructor.
      * exists m, t. split; [by left|done].
      * eapply Forall_impl; [done|]. intros r' (m' & t' & ? & ?).
        exists m', t'. split; [by right|done].
    + apply IH in H as (new & -> & Hnew). exists new. split; [done|].
      eapply Forall_impl; [done|]. intros r' (m' & t' & ? & ?).
      exists m', t'. split; [by right|done].
Qed.

(** Two runs of the loop differ in the time stamps only. *)
Lemma normalize_loop_clock now1 now2 cfg k (ms : list (list str)) t1 t2 acc1 acc2 :
  Forall2 same_fields acc1 acc2 →
  match normalize_loop now1 cfg k ms t1 acc1, normalize_loop now2 cfg k ms t2 acc2 with
  | Ok r1, Ok r2 => Forall2 same_fields r1 r2
  | Raise e1, Raise e2 => e1 = e2
  | _, _ => False
  end.
Proof.
  revert t1 t2 acc1 acc2. induction ms as [|m ms IH]; intros t1 t2 acc1 acc2 Hacc.
  - done.
  - cbn [normalize_loop].
    rewrite (normalize_row_stamp now1 t1), (normalize_row_stamp now2 t2).
    destruct (normalize_row (λ _, []) 0 cfg k m) as [[r|]|e]; cbn [mbind result_bind].
    + apply IH. apply Forall2_app; [done|]. constructor; [|done].
      apply same_fields_stamp.
    + by apply IH.
    + done.
Qed.

(** ** The whole extraction *)

Lemma pool_length html : Forall (λ m, length m = 8%nat) (pool html).
Proof.
  apply Forall_app. split; apply Forall_forall; intros m Hm.
  - by apply findall_length in Hm.
  - by apply findall_length in Hm.
Qed.

Lemma get_config_member g :
  ∃ cfg, GoldDataConfig.get_config (Member g) = Ok cfg ∧
         dict_lookup GoldDataConfig.GOLD_CONFIGS (Member g) = Some cfg.
Proof. destruct g; by eexists. Qed.

Lemma get_config_foreign s :
  ∃ cfg, GoldDataConfig.get_config (Foreign s) = Ok cfg ∧
         dict_lookup GoldDataConfig.GOLD_CONFIGS (Member JEWELRY) = Some cfg.
Proof. by eexists. Qed.

Lemma get_config_ok k : ∃ cfg, GoldDataConfig.get_config k = Ok cfg.
Proof.
  destruct k as [g|s].
  - destruct (get_config_member g) as (cfg & ? & _). by exists cfg.
  - destruct (get_config_foreign s) as (cfg & ? & _). by exists cfg.
Qed.

(** The extraction is the second loop over the first-seen candidates. *)
Lemma parse_first_seen now html k :
  ∃ cfg, GoldDataConfig.get_config k = Ok cfg ∧
    parse_complete_gold_data now html k =
      normalize_loop now cfg k (first_seen (pool html)) 0 [].
Proof.
  destruct (get_config_ok k) as [cfg Hcfg]. exists cfg. split; [done|].
  unfold parse_complete_gold_data. rewrite Hcfg. cbn [mbind result_bind].
  fold (pool html). by rewrite (dedup_loop_first_seen _ (pool_length html)).
Qed.

Lemma first_seen_length (ms : list (list str)) :
  Forall (λ m, length m = 8%nat) ms → Forall (λ m, length m = 8%nat) (first_seen ms).
Proof.
  intros H. eapply Forall_forall. intros m Hm.
  eapply Forall_forall in H; [done|]. eapply elem_of_sublist; [done|].
  apply first_seen_sublist.
Qed.

(** For a member of the enumeration the extraction returns, with the
    records of the valid first-seen candidates in their order. *)
Lemma parse_members now html g :
  ∃ recs, parse_complete_gold_data now html (Member g) = Ok recs ∧
    Forall2 record_of_row (filter (λ m, row_valid m = true) (first_seen (pool html))) recs.
Proof.
  destruct (parse_first_seen now html (Member g)) as (cfg & _ & ->).
  destruct (normalize_loop_members now cfg g (first_seen (pool html)) 0 [])
    as (recs & H & Hrel & _).
  { apply first_seen_length, pool_length. }
  exists recs. by rewrite H.
Qed.

(** ** Matching the cells of a rendered row *)




Lemma drop_literal_head l c x s :
  x ≠ c → drop_literal (c :: l) (x :: s) = None.
Proof. intros H. simpl. by rewrite (proj2 (N.eqb_neq x c) H). Qed.

Section Cells.
Context {A : Type}.
Implicit Types (k : str → list str → option A).






End Cells.


Section Rows.
Context {A : Type}.
Implicit Types (k : str → list str → option A).

(** A pattern that starts with the literal [<td] fails anywhere else. *)
Lemma td_cell_needs_td s g k : drop_literal s_td s = None → match_re td_cell s g k = None.
Proof. intros H. unfold td_cell. by rewrite match_re_cat, match_re_lit, H. Qed.

Lemma div_cell_needs_td s g k : drop_literal s_td s = None → match_re div_cell s g k = None.
Proof. intros H. unfold div_cell. by rewrite match_re_cat, match_re_lit, H. Qed.






End Rows.

(** ** Scanning a document *)


Lemma findall_from_fail r c s :
  match_here r (c :: s) = None → findall_from r (c :: s) 0 = findall_from r s 0.
Proof. intros H. cbn [findall_from]. by rewrite H. Qed.


Lemma pattern_begins_td : begins_td pattern.
Proof.
  intros s Hs. unfold match_here, pattern, eight. rewrite match_re_cat.
  by apply td_cell_needs_td.
Qed.

Lemma pattern2_begins_td : begins_td pattern2.
Proof.
  intros s Hs. unfold match_here, pattern2, eight. rewrite match_re_cat.
  by apply div_cell_needs_td.
Qed.













Lemma filter_all {B : Type} (P : B → Prop) `{!∀ x, Decision (P x)} (l : list B) :
  Forall P l → filter P l = l.
Proof.
  induction 1 as [|x l Hx _ IH]; [done|]. by rewrite filter_cons, decide_True, IH.
Qed.

Lemma filter_none {B : Type} (P : B → Prop) `{!∀ x, Decision (P x)} (l : list B) :
  Forall (λ x, ¬ P x) l → filter P l = [].
Proof.
  induction 1 as [|x l Hx _ IH]; [done|]. by rewrite filter_cons, decide_False, IH.
Qed.







(** ** Counters *)

Lemma counter_add_keys k c :
  fst <$> counter_add k c = if decide (k ∈ fst <$> c) then fst <$> c else (fst <$> c) ++ [k].
Proof.
  induction c as [|[k' n] c IH]; [done|]. cbn [counter_add].
  destruct (decide (k = k')) as [->|Hne].
  - rewrite fmap_cons. simpl. rewrite decide_True by by left. done.
  - rewrite !fmap_cons, IH. simpl. destruct (decide (k ∈ fst <$> c)) as [Hin|Hnin].
    + rewrite decide_True by by right. done.
    + rewrite decide_False; [done|]. by intros [?|?]%elem_of_cons.
Qed.

Lemma counter_add_NoDup k c : NoDup (fst <$> c) → NoDup (fst <$> counter_add k c).
Proof.
  intros H. rewrite counter_add_keys. case_decide; [done|].
  apply NoDup_app. split_and!; [done| |apply NoDup_singleton].
  intros x Hx ->%list_elem_of_singleton. done.
Qed.

Lemma counter_add_lookup k c k' :
  NoDup (fst <$> c) →
  dict_lookup (counter_add k c) k' =
    if decide (k' = k) then Some (S (default O (dict_lookup c k))) else dict_lookup c k'.
Proof.
  induction c as [|[k0 n] c IH]; intros Hnd.
  - simpl. by destruct (decide (k' = k)).
  - apply NoDup_cons in Hnd as [Hk0 Hnd]. cbn [counter_add dict_lookup].
    destruct (decide (k = k0)) as [->|Hne]; cbn [dict_lookup].
    + destruct (decide (k' = k0)) as [->|]; [|done]. done.
    + rewrite IH by done. destruct (decide (k' = k0)) as [->|].
      * by rewrite decide_False.
      * done.
Qed.

Lemma count_of_app k l1 l2 : count_of k (l1 ++ l2) = (count_of k l1 + count_of k l2)%nat.
Proof. unfold count_of. by rewrite filter_app, length_app. Qed.

Lemma count_of_absent k l : k ∉ l → count_of k l = O.
Proof.
  intros H. unfold count_of. rewrite filter_none; [done|].
  apply Forall_forall. by intros x Hx ->.
Qed.

Lemma count_of_singleton k x : count_of k [x] = if decide (x = k) then 1%nat else O.
Proof. unfold count_of. rewrite filter_cons. by case_decide. Qed.

Lemma Counter_from c l0 l :
  NoDup (fst <$> c) →
  (∀ k, dict_lookup c k = if decide (k ∈ l0) then Some (count_of k l0) else None) →
  NoDup (fst <$> foldl (λ c k, counter_add k c) c l) ∧
  ∀ k, dict_lookup (foldl (λ c k, counter_add k c) c l) k =
         if decide (k ∈ l0 ++ l) then Some (count_of k (l0 ++ l)) else None.
Proof.
  revert c l0. induction l as [|x l IH]; intros c l0 Hnd Hc.
  - by rewrite app_nil_r.
  - cbn [foldl]. replace (l0 ++ x :: l) with ((l0 ++ [x]) ++ l) by by rewrite <- app_assoc.
    apply IH; [by apply counter_add_NoDup|].
    intros k. rewrite counter_add_lookup by done. rewrite count_of_app.
    assert (default O (dict_lookup c x) = count_of x l0) as ->.
    { rewrite Hc. case_decide; [done|]. by rewrite count_of_absent. }
    destruct (decide (k = x)) as [->|Hne].
    + rewrite decide_True by (apply elem_of_app; right; by left).
      f_equal. rewrite count_of_singleton.
      rewrite (decide_True (P := x = x)) by done. lia.
    + rewrite Hc, count_of_singleton.
      rewrite (decide_False (P := x = k)) by congruence.
      rewrite Nat.add_0_r.
      destruct (decide (k ∈ l0)) as [Hin|Hnin].
      * by rewrite decide_True by (apply elem_of_app; by left).
      * rewrite decide_False; [done|].
        intros [?|?%list_elem_of_singleton]%elem_of_app; done.
Qed.

(** [Counter(l)] has one item per distinct element, with its count. *)
Lemma Counter_spec l :
  NoDup (fst <$> Counter l) ∧
  ∀ k, dict_lookup (Counter l) k = if decide (k ∈ l) then Some (count_of k l) else None.
Proof.
  apply (Counter_from [] [] l); [constructor|].
  intros k. rewrite decide_False; [done|]. apply not_elem_of_nil.
Qed.

Lemma dict_lookup_elem {V : Type} (d : list (str * V)) k v :
  NoDup (fst <$> d) → (k, v) ∈ d ↔ dict_lookup d k = Some v.
Proof.
  induction d as [|[k' v'] d IH]; intros Hnd.
  - split; [by intros ?%elem_of_nil|done].
  - apply NoDup_cons in Hnd as [Hk' Hnd]. cbn [dict_lookup].
    rewrite elem_of_cons, IH by done. destruct (decide (k = k')) as [->|Hne].
    + split.
      * intros [?|Hin]; [by simplify_eq|]. exfalso. apply Hk'.
        apply list_elem_of_fmap. exists (k', v). split; [done|].
        by apply IH.
      * intros ?; simplify_eq. by left.
    + split; [|by right]. intros [?|?]; [by simplify_eq|done].
Qed.

Lemma Counter_elem l k n :
  (k, n) ∈ Counter l ↔ k ∈ l ∧ n = count_of k l.
Proof.
  destruct (Counter_spec l) as [Hnd Hl].
  rewrite dict_lookup_elem, Hl by done.
  case_decide as Hin.
  - split; [by intros ?; simplify_eq|by intros [_ ->]].
  - split; [done|by intros [? _]].
Qed.

(** ** Percentages *)

Lemma trend_percentages_spec items total :
  total ≠ O →
  trend_percentages items total =
    Ok ((λ kv, (kv.1, percent_text kv.2 total)) <$> items).
Proof.
  intros Ht. induction items as [|[k v] items IH]; [done|].
  cbn [trend_percentages]. rewrite IH. destruct total; [done|]. reflexivity.
Qed.

(** ** Price statistics *)

Lemma Qltb_true x y : Qltb x y = true ↔ (x < y)%Q.
Proof.
  unfold Qltb. rewrite negb_true_iff, <- not_true_iff_false, Qle_bool_iff.
  split; [apply Qnot_le_lt|apply Qlt_not_le].
Qed.

Lemma Qltb_false x y : Qltb x y = false ↔ (y <= x)%Q.
Proof. unfold Qltb. by rewrite negb_false_iff, Qle_bool_iff. Qed.

Lemma max_fold_spec x l :
  let m := foldl (λ m y, if Qltb m y then y else m) x l in
  m ∈ x :: l ∧ (x <= m)%Q ∧ ∀ p, p ∈ l → (p <= m)%Q.
Proof.
  revert x. induction l as [|y l IH]; intros x; cbn [foldl].
  - split_and!; [by left|apply Qle_refl|by intros p ?%elem_of_nil].
  - destruct (Qltb x y) eqn:E.
    + destruct (IH y) as (Hin & Hle & Hall). apply Qltb_true in E.
      split_and!; [by right| |].
      * eapply Qle_trans; [by apply Qlt_le_weak|done].
      * intros p [->|?]%elem_of_cons; [done|by apply Hall].
    + destruct (IH x) as (Hin & Hle & Hall). apply Qltb_false in E.
      split_and!; [|done|].
      * apply elem_of_cons in Hin as [->|?]; [by left|by do 2 right].
      * intros p [->|?]%elem_of_cons; [by eapply Qle_trans|by apply Hall].
Qed.

Lemma min_fold_spec x l :
  let m := foldl (λ m y, if Qltb y m then y else m) x l in
  m ∈ x :: l ∧ (m <= x)%Q ∧ ∀ p, p ∈ l → (m <= p)%Q.
Proof.
  revert x. induction l as [|y l IH]; intros x; cbn [foldl].
  - split_and!; [by left|apply Qle_refl|by intros p ?%elem_of_nil].
  - destruct (Qltb y x) eqn:E.
    + destruct (IH y) as (Hin & Hle & Hall). apply Qltb_true in E.
      split_and!; [by right| |].
      * eapply Qle_trans; [done|by apply Qlt_le_weak].
      * intros p [->|?]%elem_of_cons; [done|by apply Hall].
    + destruct (IH x) as (Hin & Hle & Hall). apply Qltb_false in E.
      split_and!; [|done|].
      * apply elem_of_cons in Hin as [->|?]; [by left|by do 2 right].
      * intros p [->|?]%elem_of_cons; [by eapply Qle_trans|by apply Hall].
Qed.

(** [max] and [min] return an element that bounds all the others. *)
Lemma py_max_spec l :
  l ≠ [] → ∃ m, py_max l = Ok m ∧ m ∈ l ∧ ∀ p, p ∈ l → (p <= m)%Q.
Proof.
  destruct l as [|x l]; [done|]. intros _.
  destruct (max_fold_spec x l) as (Hin & Hle & Hall).
  eexists. split; [done|]. split; [done|].
  intros p [->|?]%elem_of_cons; [done|by apply Hall].
Qed.

Lemma py_min_spec l :
  l ≠ [] → ∃ m, py_min l = Ok m ∧ m ∈ l ∧ ∀ p, p ∈ l → (m <= p)%Q.
Proof.
  destruct l as [|x l]; [done|]. intros _.
  destruct (min_fold_spec x l) as (Hin & Hle & Hall).
  eexists. split; [done|]. split; [done|].
  intros p [->|?]%elem_of_cons; [done|by apply Hall].
Qed.

Lemma insert_sorted_Permutation x l : insert_sorted Qltb x l ≡ₚ x :: l.
Proof.
  induction l as [|y l IH]; [done|]. cbn [insert_sorted].
  destruct (Qltb y x); [|done]. rewrite IH. apply Permutation_swap.
Qed.

Lemma insert_sorted_Sorted x l : Sorted Qle l → Sorted Qle (insert_sorted Qltb x l).
Proof.
  induction 1 as [|y l Hl IH Hhd]; cbn [insert_sorted].
  - by repeat constructor.
  - destruct (Qltb y x) eqn:E.
    + constructor; [done|]. apply Qltb_true in E.
      destruct l as [|z l]; cbn [insert_sorted].
      * constructor. by apply Qlt_le_weak.
      * destruct (Qltb z x); constructor; [by inversion Hhd|by apply Qlt_le_weak].
    + apply Qltb_false in E. constructor; [by constructor|by constructor].
Qed.

(** [sorted] gives the same prices in ascending order. *)
Lemma sorted_Permutation l : sorted l ≡ₚ l.
Proof.
  induction l as [|x l IH]; [done|].
  unfold sorted, sorted_by in *. cbn [foldr].
  by rewrite insert_sorted_Permutation, IH.
Qed.

Lemma sorted_Sorted l : Sorted Qle (sorted l).
Proof.
  induction l as [|x l IH]; [constructor|].
  unfold sorted, sorted_by in *. cbn [foldr]. by apply insert_sorted_Sorted.
Qed.

Lemma sorted_length l : length (sorted l) = length l.
Proof. by rewrite sorted_Permutation. Qed.

Lemma median_index l :
  l ≠ [] → ∃ med, index (sorted l) (length l / 2) = Ok med ∧
                   sorted l !! (length l / 2)%nat = Some med.
Proof.
  intros Hl. unfold index.
  destruct (lookup_lt_is_Some_2 (sorted l) (length l / 2)) as [med Hmed].
  - rewrite sorted_length. destruct l; [done|]. simpl length.
    apply Nat.div_lt; lia.
  - exists med. by rewrite Hmed.
Qed.

Lemma py_sum_from acc l : (foldl Qplus acc l == acc + foldr Qplus 0 l)%Q.
Proof.
  revert acc. induction l as [|x l IH]; intros acc; cbn [foldl foldr].
  - by rewrite Qplus_0_r.
  - rewrite IH. by rewrite Qplus_assoc.
Qed.

(** [sum(l) / len(l)] is the arithmetic mean. *)
Lemma mean_spec l :
  l ≠ [] → ∃ avg, div_len (py_sum l) (length l) = Ok avg ∧
    (avg * inject_Z (Z.of_nat (length l)) == foldr Qplus 0 l)%Q.
Proof.
  destruct l as [|x l]; [done|]. intros _. eexists. split; [done|].
  unfold py_sum. rewrite py_sum_from, Qplus_0_l.
  rewrite Qmult_comm, Qmult_div_r; [done|].
  unfold Qeq. simpl. lia.
Qed.

Lemma present_prices_omap gold_data : present_prices gold_data = omap price_value gold_data.
Proof.
  induction gold_data as [|x l IH]; [done|]. cbn [present_prices omap list_omap].
  destruct (price_value x); by rewrite IH.
Qed.

(** ** The report of a collection that is not empty *)

Lemma analyze_nonempty gold_data :
  gold_data ≠ [] →
  ∃ r, analyze_gold_data gold_data = Ok (Sections r) ∧
    total_records (data_overview r) = length gold_data ∧
    valid_price_number (data_overview r) = length (present_prices gold_data) ∧
    trend_stats r = Counter (trend <$> gold_data) ∧
    trend_ratio r =
      (λ kv, (kv.1, percent_text kv.2 (length gold_data))) <$> Counter (trend <$> gold_data) ∧
    match present_prices gold_data with
    | [] => price_analysis r = None
    | _ :: _ =>
        ∃ hi lo avg med,
          py_max (present_prices gold_data) = Ok hi ∧
          py_min (present_prices gold_data) = Ok lo ∧
          div_len (py_sum (present_prices gold_data))
                  (length (present_prices gold_data)) = Ok avg ∧
          index (sorted (present_prices gold_data))
                (length (present_prices gold_data) / 2) = Ok med ∧
          price_analysis r =
            Some {| highest := hi; lowest := lo; average := avg; median := med;
                    price_number := length (present_prices gold_data) |}
    end.
Proof.
  destruct gold_data as [|x l]; [done|]. intros _.
  unfold analyze_gold_data.
  rewrite (trend_percentages_spec _ (length (x :: l))) by done.
  destruct (present_prices (x :: l)) as [|p ps] eqn:E.
  - eexists. split; [reflexivity|]. by rewrite ?E.
  - destruct (py_max_spec (p :: ps)) as (hi & Hhi & _); [done|].
    destruct (py_min_spec (p :: ps)) as (lo & Hlo & _); [done|].
    destruct (mean_spec (p :: ps)) as (avg & Havg & _); [done|].
    destruct (median_index (p :: ps)) as (med & Hmed & _); [done|].
    rewrite Hhi, Hlo, Havg, Hmed.
    eexists. split; [reflexivity|]. cbn [data_overview total_records valid_price_number
      trend_stats trend_ratio price_analysis].
    split_and!; try done. by exists hi, lo, avg, med.
Qed.

(** ** Trimming *)

Lemma lstrip_spec s :
  ∃ l, s = l ++ lstrip s ∧ Forall (λ c, isspace c = true) l ∧ head_ok Space (lstrip s) = false.
Proof.
  induction s as [|c s (l & Hs & Hl & Hh)]; [by exists []|].
  cbn [lstrip]. destruct (isspace c) eqn:Hc.
  - exists (c :: l). split_and!; [by rewrite Hs at 1|by constructor|done].
  - exists []. split_and!; [done|constructor|]. simpl. by rewrite Hc.
Qed.

Lemma head_ok_app_false a (s t : str) :
  s ≠ [] → head_ok a s = false → head_ok a (s ++ t) = false.
Proof. by destruct s. Qed.

(** [strip] removes white space at both ends and nothing else. *)
Lemma strip_spec s :
  ∃ l r, s = l ++ strip s ++ r ∧
    Forall (λ c, isspace c = true) l ∧ Forall (λ c, isspace c = true) r ∧
    head_ok Space (strip s) = false ∧ head_ok Space (reverse (strip s)) = false.
Proof.
  unfold strip, rstrip.
  destruct (lstrip_spec s) as (l & Hs & Hl & Hh).
  destruct (lstrip_spec (reverse (lstrip s))) as (r & Hr & Hrs & Hrh).
  exists l, (reverse r). rewrite reverse_involutive.
  assert (lstrip s = reverse (lstrip (reverse (lstrip s))) ++ reverse r) as Hmid.
  { rewrite <- reverse_app, <- Hr. by rewrite reverse_involutive. }
  split_and!; [by rewrite <- Hmid| done | by apply Forall_reverse | | done].
  destruct (reverse (lstrip (reverse (lstrip s)))) as [|c u] eqn:E; [done|].
  rewrite Hmid in Hh. by destruct (isspace c) eqn:Hc; simpl in *; rewrite ?Hc in *.
Qed.

(** ** Frequency tables *)

Lemma counter_add_total k c : total_count (counter_add k c) = S (total_count c).
Proof.
  unfold total_count. induction c as [|[k' n] c IH]; [done|].
  cbn [counter_add]. destruct (decide (k = k')); simpl in *; lia.
Qed.

Lemma Counter_total_from c l :
  total_count (foldl (λ c k, counter_add k c) c l) = (total_count c + length l)%nat.
Proof.
  revert c. induction l as [|x l IH]; intros c; cbn [foldl length]; [lia|].
  rewrite IH, counter_add_total. lia.
Qed.

(** The counts of a [Counter] add up to the length of the list. *)
Lemma Counter_total l : total_count (Counter l) = length l.
Proof. unfold Counter. by rewrite Counter_total_from. Qed.

Lemma Counter_keys_from c l :
  fst <$> foldl (λ c k, counter_add k c) c l =
    (fst <$> c) ++ filter (λ y, y ∉ fst <$> c) (distinct l).
Proof.
  revert c. induction l as [|x l IH]; intros c; cbn [foldl distinct].
  - by rewrite app_nil_r.
  - rewrite IH, counter_add_keys, filter_cons, list_filter_filter.
    destruct (decide (x ∈ fst <$> c)) as [Hin|Hnin].
    + rewrite decide_False by (by intros ?). f_equal.
      apply list_filter_iff. intros y. split; [|by intros [? _]].
      intros Hy. split; [done|]. by intros ->.
    + rewrite decide_True by done. rewrite <- app_assoc. f_equal.
      cbn [app]. f_equal. apply list_filter_iff. intros y.
      rewrite elem_of_app, list_elem_of_singleton. tauto.
Qed.

(** The keys of a [Counter] are the distinct elements, in the order of their
    first occurrence. *)
Lemma Counter_keys l : fst <$> Counter l = distinct l.
Proof.
  unfold Counter. rewrite Counter_keys_from. cbn [fmap list_fmap app].
  apply filter_all, Forall_forall. intros y _. apply not_elem_of_nil.
Qed.

Lemma distinct_elem x l : x ∈ distinct l ↔ x ∈ l.
Proof.
  rewrite <- Counter_keys, list_elem_of_fmap. split.
  - intros ([k n] & -> & Hin). by apply Counter_elem in Hin as [? _].
  - intros Hin. exists (x, count_of x l). split; [done|]. by apply Counter_elem.
Qed.

Lemma distinct_NoDup l : NoDup (distinct l).
Proof. rewrite <- Counter_keys. apply Counter_spec. Qed.

(** [len(Counter(l))] is the number of different elements of [l]. *)
Lemma Counter_length l : length (Counter l) = size (list_to_set (C := gset str) l).
Proof.
  rewrite <- (length_fmap fst), Counter_keys.
  rewrite <- (size_list_to_set (C := gset str)) by apply distinct_NoDup.
  f_equal. apply set_eq. intros x. by rewrite !elem_of_list_to_set, distinct_elem.
Qed.

(** ** Stable sorting *)

Section Sorting_lemmas.
Context {A : Type} (before : A → A → bool).

Lemma insert_sorted_perm x l : insert_sorted before x l ≡ₚ x :: l.
Proof.
  induction l as [|y l IH]; [done|]. cbn [insert_sorted].
  destruct (before y x); [|done]. rewrite IH. apply Permutation_swap.
Qed.

Lemma sorted_by_perm l : sorted_by before l ≡ₚ l.
Proof.
  induction l as [|x l IH]; [done|]. unfold sorted_by in *. cbn [foldr].
  by rewrite insert_sorted_perm, IH.
Qed.

(** Elements of which none goes in front of another keep their order. *)
Lemma insert_sorted_filter (P : A → Prop) `{!∀ x, Decision (P x)} x l :
  (∀ x y, P x → P y → before y x = false) →
  filter P (insert_sorted before x l) = filter P (x :: l).
Proof.
  intros HP. induction l as [|y l IH]; [done|]. cbn [insert_sorted].
  destruct (before y x) eqn:E; [|done].
  rewrite filter_cons, IH, !filter_cons.
  destruct (decide (P y)) as [Hy|Hy]; [|done].
  destruct (decide (P x)) as [Hx|Hx]; [|done].
  rewrite HP in E by done. done.
Qed.

Lemma sorted_by_filter (P : A → Prop) `{!∀ x, Decision (P x)} l :
  (∀ x y, P x → P y → before y x = false) →
  filter P (sorted_by before l) = filter P l.
Proof.
  intros HP. induction l as [|x l IH]; [done|]. unfold sorted_by in *.
  cbn [foldr]. rewrite insert_sorted_filter by done.
  by rewrite !filter_cons, IH.
Qed.
End Sorting_lemmas.

Lemma most_common_perm c : most_common c ≡ₚ c.
Proof. apply sorted_by_perm. Qed.

Lemma most_common_insert x l :
  Sorted (λ a b : str * nat, (b.2 ≤ a.2)%nat) l →
  Sorted (λ a b : str * nat, (b.2 ≤ a.2)%nat)
    (insert_sorted (λ y x : str * nat, (x.2 <? y.2)%nat) x l).
Proof.
  induction 1 as [|y l Hl IH Hhd]; cbn [insert_sorted].
  - by repeat constructor.
  - destruct (x.2 <? y.2)%nat eqn:E.
    + apply Nat.ltb_lt in E. constructor; [done|].
      destruct l as [|z l]; cbn [insert_sorted].
      * constructor. lia.
      * destruct (x.2 <? z.2)%nat; constructor; [by inversion Hhd|lia].
    + apply Nat.ltb_ge in E. constructor; [by constructor|by constructor].
Qed.

(** [most_common] orders a table by count, largest first. *)
Lemma most_common_desc c :
  Sorted (λ a b : str * nat, (b.2 ≤ a.2)%nat) (most_common c).
Proof.
  induction c as [|x c IH]; [constructor|].
  unfold most_common, sorted_by in *. cbn [foldr]. by apply most_common_insert.
Qed.

(** Entries with the same count stay in the order of the table. *)
Lemma most_common_stable n c : with_count n (most_common c) = with_count n c.
Proof.
  unfold with_count, most_common. apply sorted_by_filter.
  intros x y Hx Hy. apply Nat.ltb_ge. lia.
Qed.

Lemma most_common_total c : total_count (most_common c) = total_count c.
Proof. unfold total_count. by rewrite most_common_perm. Qed.

Lemma most_common_length c : length (most_common c) = length c.
Proof. by rewrite most_common_perm. Qed.

#[local] Instance count_desc_trans :
  Transitive (λ a b : str * nat, (b.2 ≤ a.2)%nat).
Proof. intros a b c ??. lia. Qed.

(** The entries that [most_common(n)] leaves out have counts that are not
    above those it keeps. *)
Lemma most_common_n_cut n c :
  most_common c = most_common_n n c ++ drop n (most_common c) ∧
  ∀ kept left, kept ∈ most_common_n n c → left ∈ drop n (most_common c) →
    (left.2 ≤ kept.2)%nat.
Proof.
  unfold most_common_n. split; [by rewrite take_drop|].
  intros kept left Hk Hl.
  pose proof (most_common_desc c) as Hs.
  apply Sorted_StronglySorted in Hs; [|apply _].
  rewrite <- (take_drop n (most_common c)) in Hs.
  by apply (StronglySorted_app_1_elem_of _ _ _ kept left) in Hs.
Qed.

(** ** The order of dates *)

Lemma str_ltb_irrefl a : str_ltb a a = false.
Proof.
  induction a as [|x a IH]; [done|]. cbn [str_ltb].
  rewrite N.ltb_irrefl, N.eqb_refl, IH. done.
Qed.

Lemma str_ltb_trans a b c :
  str_ltb a b = true → str_ltb b c = true → str_ltb a c = true.
Proof.
  revert b c. induction a as [|x a IH]; intros [|y b] [|z c]; cbn [str_ltb]; try done.
  intros H1 H2.
  apply orb_true_iff in H1 as [H1|[H1 H1']%andb_true_iff];
    apply orb_true_iff in H2 as [H2|[H2 H2']%andb_true_iff];
    apply orb_true_iff;
    rewrite ?N.ltb_lt, ?N.eqb_eq in *.
  - left. lia.
  - left. lia.
  - left. lia.
  - right. apply andb_true_iff. split; [apply N.eqb_eq; lia|by eapply IH].
Qed.

Lemma str_ltb_total a b : str_ltb a b = false → str_ltb b a = false → a = b.
Proof.
  revert b. induction a as [|x a IH]; intros [|y b]; cbn [str_ltb]; try done.
  intros H1 H2.
  apply orb_false_iff in H1 as [H1 H1']. apply orb_false_iff in H2 as [H2 H2'].
  apply N.ltb_ge in H1, H2. assert (x = y) as -> by lia.
  rewrite N.eqb_refl in H1', H2'. simpl in H1', H2'. f_equal. by apply IH.
Qed.

(** Not below [m], and [m] not below [y]: then not below [y]. *)
Lemma str_ltb_false_trans p m y :
  str_ltb p m = false → str_ltb m y = false → str_ltb p y = false.
Proof.
  intros H1 H2. destruct (str_ltb p y) eqn:E; [|done].
  destruct (str_ltb y m) eqn:E2.
  - by rewrite (str_ltb_trans p y m) in H1.
  - assert (m = y) as -> by by apply str_ltb_total. congruence.
Qed.

Lemma str_min_fold x l :
  let m := foldl (λ m y, if str_ltb y m then y else m) x l in
  m ∈ x :: l ∧ str_ltb x m = false ∧ ∀ p, p ∈ l → str_ltb p m = false.
Proof.
  revert x. induction l as [|y l IH]; intros x; cbn [foldl].
  - split_and!; [by left|apply str_ltb_irrefl|by intros p ?%elem_of_nil].
  - destruct (str_ltb y x) eqn:E.
    + destruct (IH y) as (Hin & Hle & Hall).
      split_and!; [by right| |].
      * eapply str_ltb_false_trans; [|done].
        destruct (str_ltb x y) eqn:E'; [|done].
        pose proof (str_ltb_trans _ _ _ E E') as C. by rewrite str_ltb_irrefl in C.
      * intros p [->|?]%elem_of_cons; [done|by apply Hall].
    + destruct (IH x) as (Hin & Hle & Hall).
      split_and!; [|done|].
      * apply elem_of_cons in Hin as [->|?]; [by left|by do 2 right].
      * intros p [->|?]%elem_of_cons; [by eapply str_ltb_false_trans|by apply Hall].
Qed.

Lemma str_max_fold x l :
  let m := foldl (λ m y, if str_ltb m y then y else m) x l in
  m ∈ x :: l ∧ str_ltb m x = false ∧ ∀ p, p ∈ l → str_ltb m p = false.
Proof.
  revert x. induction l as [|y l IH]; intros x; cbn [foldl].
  - split_and!; [by left|apply str_ltb_irrefl|by intros p ?%elem_of_nil].
  - destruct (str_ltb x y) eqn:E.
    + destruct (IH y) as (Hin & Hle & Hall).
      split_and!; [by right| |].
      * eapply str_ltb_false_trans; [done|].
        destruct (str_ltb y x) eqn:E'; [|done].
        pose proof (str_ltb_trans _ _ _ E E') as C. by rewrite str_ltb_irrefl in C.
      * intros p [->|?]%elem_of_cons; [done|by apply Hall].
    + destruct (IH x) as (Hin & Hle & Hall).
      split_and!; [|done|].
      * apply elem_of_cons in Hin as [->|?]; [by left|by do 2 right].
      * intros p [->|?]%elem_of_cons; [by eapply str_ltb_false_trans|by apply Hall].
Qed.

Lemma str_min_spec l :
  l ≠ [] → ∃ m, str_min l = Ok m ∧ m ∈ l ∧ ∀ p, p ∈ l → str_ltb p m = false.
Proof.
  destruct l as [|x l]; [done|]. intros _.
  destruct (str_min_fold x l) as (Hin & Hle & Hall).
  eexists. split; [done|]. split; [done|].
  intros p [->|?]%elem_of_cons; [done|by apply Hall].
Qed.

Lemma str_max_spec l :
  l ≠ [] → ∃ m, str_max l = Ok m ∧ m ∈ l ∧ ∀ p, p ∈ l → str_ltb m p = false.
Proof.
  destruct l as [|x l]; [done|]. intros _.
  destruct (str_max_fold x l) as (Hin & Hle & Hall).
  eexists. split; [done|]. split; [done|].
  intros p [->|?]%elem_of_cons; [done|by apply Hall].
Qed.

(** ** Bounds of the mean *)



(** ** All the sections of the report *)

Lemma analyze_report gold_data :
  gold_data ≠ [] →
  ∃ r lo hi,
    analyze_gold_data gold_data = Ok (Sections r) ∧
    str_min (date <$> gold_data) = Ok lo ∧
    str_max (date <$> gold_data) = Ok hi ∧
    date_range (data_overview r) = lo ++ py " 至 " ++ hi ∧
    total_records (data_overview r) = length gold_data ∧
    brand_number (data_overview r) = length (Counter (brand <$> gold_data)) ∧
    product_number (data_overview r) = length (Counter (product <$> gold_data)) ∧
    valid_price_number (data_overview r) = length (present_prices gold_data) ∧
    brand_stats r = most_common (Counter (brand <$> gold_data)) ∧
    main_brands r = most_common_n 10 (Counter (brand <$> gold_data)) ∧
    product_stats r = most_common (Counter (product <$> gold_data)) ∧
    hot_products r = most_common_n 10 (Counter (product <$> gold_data)) ∧
    trend_stats r = Counter (trend <$> gold_data) ∧
    date_stats r = most_common (Counter (date <$> gold_data)) ∧
    date_number r = length (Counter (date <$> gold_data)).
Proof.
  intros Hne.
  destruct (analyze_nonempty gold_data Hne) as (r & Hr & _).
  destruct (str_min_spec (date <$> gold_data)) as (lo & Hlo & _); [by destruct gold_data|].
  destruct (str_max_spec (date <$> gold_data)) as (hi & Hhi & _); [by destruct gold_data|].
  exists r, lo, hi. split; [done|]. split; [done|]. split; [done|].
  destruct gold_data as [|x l]; [done|].
  unfold analyze_gold_data in Hr.
  rewrite (trend_percentages_spec _ (length (x :: l))) in Hr by done.
  rewrite Hlo, Hhi in Hr.
  destruct (match present_prices (x :: l) with [] => _ | _ => _ end) as [pa|e] eqn:Epa.
  - cbn [mbind result_bind] in Hr. injection Hr as <-. by split_and!.
  - destruct (fmap date (x :: l)) eqn:Ed; [done|]. done.
Qed.

(** ** The tables of the report *)

Lemma fmap_fst_filter (P : str * nat → Prop) (Q : str → Prop)
    `{!∀ x, Decision (P x), !∀ x, Decision (Q x)} (c : list (str * nat)) :
  (∀ kv, kv ∈ c → P kv ↔ Q kv.1) →
  fst <$> filter P c = filter Q (fst <$> c).
Proof.
  induction c as [|kv c IH]; intros Hc; [done|].
  rewrite fmap_cons, !filter_cons.
  destruct (decide (P kv)) as [Hp|Hp], (decide (Q kv.1)) as [Hq|Hq].
  - rewrite fmap_cons, IH; [done|]. intros ??. apply Hc. by right.
  - exfalso. apply Hq, Hc; [by left|done].
  - exfalso. apply Hp, Hc; [by left|done].
  - apply IH. intros ??. apply Hc. by right.
Qed.

Lemma most_common_frequency_table xs : frequency_table xs (most_common (Counter xs)).
Proof.
  destruct (Counter_spec xs) as [Hnd _]. split_and!.
  - by rewrite most_common_perm.
  - intros k n. rewrite most_common_perm. apply Counter_elem.
  - apply most_common_desc.
  - intros n. rewrite most_common_stable. unfold with_count.
    rewrite <- Counter_keys. apply fmap_fst_filter.
    intros [k m] Hin. apply Counter_elem in Hin as [_ ->]. done.
Qed.

(** ** The price statistics *)

Lemma analyze_prices gold_data :
  present_prices gold_data ≠ [] →
  ∃ r stats,
    analyze_gold_data gold_data = Ok (Sections r) ∧
    price_analysis r = Some stats ∧
    py_max (present_prices gold_data) = Ok (highest stats) ∧
    py_min (present_prices gold_data) = Ok (lowest stats) ∧
    div_len (py_sum (present_prices gold_data))
            (length (present_prices gold_data)) = Ok (average stats) ∧
    index (sorted (present_prices gold_data))
          (length (present_prices gold_data) / 2) = Ok (median stats).
Proof.
  intros Hp.
  assert (gold_data ≠ []) as Hne by (by intros ->).
  destruct (analyze_nonempty gold_data Hne) as (r & Hr & _ & _ & _ & _ & Hprices).
  destruct (present_prices gold_data) as [|p ps] eqn:E; [done|].
  destruct Hprices as (hi & lo & avg & med & Hhi & Hlo & Havg & Hmed & Hstats).
  exists r. eexists. split; [done|]. split; [done|]. done.
Qed.

Lemma present_prices_length gold_data :
  (length (present_prices gold_data) ≤ length gold_data)%nat.
Proof.
  induction gold_data as [|x l IH]; [done|]. cbn [present_prices].
  destruct (price_value x); simpl; lia.
Qed.

Lemma index_Ok {A : Type} (l : list A) i x : index l i = Ok x → l !! i = Some x.
Proof. unfold index. destruct (l !! i); [|done]. by intros [= ->]. Qed.

#[local] Instance Qle_trans_inst : Transitive Qle.
Proof. intros x y z. apply Qle_trans. Qed.

Lemma filter_length_all {A : Type} (P : A → Prop) `{!∀ x, Decision (P x)} (l : list A) :
  Forall P l → length (filter P l) = length l.
Proof. intros Hall. by rewrite filter_all. Qed.

(** In an ascending list, the elements up to an index are at most the
    element there and those from it on are at least that element. *)
Lemma Sorted_halves l i m :
  Sorted Qle l → l !! i = Some m →
  (S i ≤ number_at_most m l)%nat ∧ (length l - i ≤ number_at_least m l)%nat.
Proof.
  intros Hs Hi. apply Sorted_StronglySorted in Hs; [|apply _].
  pose proof (take_drop_middle l i m Hi) as Hl.
  pose proof (lookup_lt_Some _ _ _ Hi) as Hlt.
  rewrite <- Hl in Hs.
  apply StronglySorted_app in Hs as (Hcross & _ & Hs2).
  apply StronglySorted_cons in Hs2 as [Hge Hs2].
  unfold number_at_most, number_at_least. rewrite <- Hl at 1 3. split.
  - rewrite (cons_middle m), app_assoc, filter_app, length_app.
    rewrite filter_length_all.
    + rewrite length_app, length_take. simpl. lia.
    + apply Forall_app. split.
      * apply Forall_forall. intros p Hp. apply Qle_bool_iff.
        apply Hcross; [done|by left].
      * repeat constructor. apply Qle_bool_iff, Qle_refl.
  - rewrite filter_app, length_app.
    rewrite (filter_length_all _ (m :: drop (S i) l)).
    + simpl. rewrite length_drop. lia.
    + constructor; [apply Qle_bool_iff, Qle_refl|].
      eapply Forall_impl; [exact Hge|]. intros p Hp. by apply Qle_bool_iff.
Qed.

Lemma number_at_most_perm m l1 l2 : l1 ≡ₚ l2 → number_at_most m l1 = number_at_most m l2.
Proof. intros H. unfold number_at_most. by rewrite H. Qed.

Lemma number_at_least_perm m l1 l2 : l1 ≡ₚ l2 → number_at_least m l1 = number_at_least m l2.
Proof. intros H. unfold number_at_least. by rewrite H. Qed.

(** ** Texts without a cell *)

Lemma occurs_false_inv needle c hay :
  occurs needle (c :: hay) = false →
  drop_literal needle (c :: hay) = None ∧ occurs needle hay = false.
Proof. cbn [occurs]. by destruct (drop_literal needle (c :: hay)). Qed.

Lemma findall_without_td r html :
  begins_td r → occurs s_td html = false → findall r html = [].
Proof.
  intros Hr. unfold findall. induction html as [|c html IH]; intros Ho.
  - cbn [findall_from]. by rewrite (Hr []).
  - apply occurs_false_inv in Ho as [Hd Ho].
    rewrite findall_from_fail by by apply Hr. by apply IH.
Qed.

Lemma pool_without_td html : occurs s_td html = false → pool html = [].
Proof.
  intros Ho. unfold pool.
  rewrite (findall_without_td _ _ pattern_begins_td Ho).
  by rewrite (findall_without_td _ _ pattern2_begins_td Ho).
Qed.

(** ** The fields that the second loop adds *)

Lemma normalize_row_enriched now t cfg k m r :
  normalize_row now t cfg k m = Ok (Some r) →
  gold_type_name r = name cfg ∧ value k = Ok (gold_type_code r) ∧
  source r = py "新浪财经" ∧ parsed_at r = now t ∧ required_present r.
Proof.
  intros H.
  apply normalize_row_Some in H as (f1 & f2 & f3 & f4 & f5 & f6 & f7 & f8 & tl & -> & H).
  rewrite normalize_row_eight in H.
  destruct (required _ _ _ _ _) eqn:Hreq; [|done].
  apply required_spec in Hreq.
  destruct (price_step (strip f4)) as [pv|]; [|done]. cbn [mbind result_bind] in H.
  destruct (value k) as [code|]; [|done]. cbn [mbind result_bind] in H.
  injection H as <-. done.
Qed.

Lemma normalize_loop_enriched now cfg k (ms : list (list str)) t acc recs :
  normalize_loop now cfg k ms t acc = Ok recs →
  ∃ new, recs = acc ++ new ∧
    Forall (λ r, gold_type_name r = name cfg ∧ value k = Ok (gold_type_code r) ∧
                 source r = py "新浪财经" ∧ required_present r) new.
Proof.
  intros H. apply normalize_loop_inv in H as (new & -> & Hnew).
  exists new. split; [done|]. eapply Forall_impl; [exact Hnew|].
  intros r (m & t' & _ & Hrow). apply normalize_row_enriched in Hrow. tauto.
Qed.

(** ** Categories outside the enumeration *)



(** ** File names *)

Lemma uint_digits_chars d : Forall (λ c, 48 ≤ c ≤ 57) (uint_digits d).
Proof. induction d; cbn [uint_digits]; constructor; (lia || done). Qed.

Lemma decimal_chars w n : Forall stamp_char (decimal w n).
Proof.
  unfold decimal, zfill. apply Forall_app. split.
  - apply Forall_replicate. left. unfold c_zero. lia.
  - eapply Forall_impl; [apply uint_digits_chars|]. intros c Hc. by left.
Qed.

Lemma strftime_chars d : Forall stamp_char (strftime d).
Proof.
  unfold strftime. rewrite !Forall_app. split_and!; try apply decimal_chars.
  constructor; [by right|constructor].
Qed.

Lemma stamp_char_not c (T : str) : ¬ stamp_char c → Forall stamp_char T → c ∉ T.
Proof.
  intros Hc HT Hin. eapply Forall_forall in HT; [|done]. done.
Qed.

(** A text of stamp characters followed by [x] starts with another
    character only when it is empty. *)
Lemma stamp_head (T x y : str) c :
  Forall stamp_char T → ¬ stamp_char c → T ++ x = c :: y → T = [] ∧ x = c :: y.
Proof.
  intros HT Hc Heq. destruct T as [|c' T]; [done|].
  simpl in Heq. injection Heq as -> _. by apply Forall_cons in HT as [? _].
Qed.

Lemma stamps_differ (T1 T2 x y : str) :
  Forall stamp_char T1 → Forall stamp_char T2 →
  T1 ++ c_point :: x ≠ T2 ++ c_underscore :: 97 :: y.
Proof.
  intros H1. revert T2. induction H1 as [|c T1 Hc H1 IH]; intros T2 H2 Heq.
  - symmetry in Heq. apply stamp_head in Heq as [_ Heq]; [done|done|].
    unfold stamp_char, c_underscore, c_point. lia.
  - destruct H2 as [|c2 T2 Hc2 H2].
    + simpl in Heq. injection Heq as -> Heq.
      apply stamp_head in Heq as [_ Heq]; [done|done|].
      unfold stamp_char, c_underscore. lia.
    + simpl in Heq. injection Heq as -> Heq. by eapply IH.
Qed.

Lemma get_config_prefix k :
  ∃ cfg, GoldDataConfig.get_config k = Ok cfg ∧ filename_prefix cfg = prefix_for k.
Proof. destruct k as [[]|s]; by eexists. Qed.

Lemma prefix_for_point k : c_point ∉ prefix_for k.
Proof. destruct k as [[]|s]; apply (bool_decide_unpack _); vm_compute; exact I. Qed.

Lemma get_filename_latest cal t k ext :
  get_filename cal t k ext false = Ok (prefix_for k ++ s_latest ++ ext).
Proof.
  unfold get_filename. destruct (get_config_prefix k) as (cfg & -> & <-). done.
Qed.

Lemma get_filename_stamped cal t k ext :
  get_filename cal t k ext true =
    Ok (prefix_for k ++ [c_underscore] ++ strftime (cal t) ++ [c_point] ++ ext).
Proof.
  unfold get_filename. destruct (get_config_prefix k) as (cfg & -> & <-). done.
Qed.

(** ** Replacing the extension *)

Lemma replace_from_skip old new (u : str) : replace_from old new u (length u) = [].
Proof. induction u as [|c u IH]; [done|]. exact IH. Qed.

Lemma drop_literal_self (l : str) : drop_literal l l = Some [].
Proof.
  induction l as [|c l IH]; [done|]. cbn [drop_literal]. by rewrite N.eqb_refl.
Qed.

(** In a text that ends with its only occurrence of [old], the occurrence
    is replaced and nothing else. *)
Lemma replace_suffix c (tl new s : str) :
  c ∉ s → str_replace (c :: tl) new (s ++ c :: tl) = s ++ new.
Proof.
  unfold str_replace. induction s as [|x s IH]; intros Hc.
  - cbn [app replace_from]. rewrite drop_literal_self.
    replace (length (c :: tl) - 1)%nat with (length tl) by (simpl; lia).
    by rewrite replace_from_skip, app_nil_r.
  - change ((x :: s) ++ c :: tl) with (x :: (s ++ c :: tl)).
    cbn [replace_from]. rewrite drop_literal_head.
    + cbn [app]. f_equal. apply IH. intros ?. apply Hc. by right.
    + intros ->. apply Hc. by left.
Qed.

Lemma analysis_latest k :
  str_replace s_dot_json s_analysis_json (prefix_for k ++ s_latest ++ s_json) =
    latest_analysis (prefix_for k).
Proof.
  pose proof (prefix_for_point k) as Hp.
  change (s_latest ++ s_json) with (py "_latest" ++ s_dot_json).
  rewrite app_assoc.
  etransitivity;
    [apply (replace_suffix c_point s_json s_analysis_json (prefix_for k ++ py "_latest"))|].
  - intros [?|Hin]%elem_of_app; [done|]. revert Hin.
    apply (bool_decide_unpack _). vm_compute. exact I.
  - unfold latest_analysis. by rewrite <- app_assoc.
Qed.

Lemma analysis_stamped k d :
  str_replace s_dot_json s_analysis_json
    (prefix_for k ++ [c_underscore] ++ strftime d ++ [c_point] ++ s_json) =
    stamped_analysis (prefix_for k) d.
Proof.
  pose proof (prefix_for_point k) as Hp.
  change ([c_point] ++ s_json) with s_dot_json.
  rewrite !app_assoc.
  etransitivity;
    [apply (replace_suffix c_point s_json s_analysis_json
              ((prefix_for k ++ [c_underscore]) ++ strftime d))|].
  - rewrite !elem_of_app. intros [[?|Hin]|Hin]; [done| |].
    + apply list_elem_of_singleton in Hin. discriminate Hin.
    + revert Hin. apply stamp_char_not; [|apply strftime_chars].
      unfold stamp_char, c_point, c_underscore. lia.
  - unfold stamped_analysis. by rewrite <- !app_assoc.
Qed.

(** ** What a save leaves in the directory *)

Lemma save_data_after cal t engine gold_data a k dir :
  save_data cal t engine gold_data a k dir =
    Ok (after_save engine gold_data a (prefix_for k) (cal t) (cal (S t)) dir).
Proof.
  unfold save_data. rewrite !get_filename_latest, !get_filename_stamped.
  cbn [mbind result_bind]. rewrite analysis_latest, analysis_stamped. done.
Qed.

Lemma _save_data_after cal t engine gold_data a k dir :
  GoldDataManager._save_data cal t engine gold_data a k dir =
    Ok (after_save engine gold_data a (prefix_for k) (cal t) (cal (S t)) dir).
Proof. apply save_data_after. Qed.

Ltac eval_py :=
  repeat match goal with
  | |- context [py ?s] =>
      let v := eval vm_compute in (py s) in change (py s) with v
  | H : context [py ?s] |- _ =>
      let v := eval vm_compute in (py s) in change (py s) with v in H
  end.

Ltac stamp_differs Heq :=
  first
    [ apply stamp_head in Heq as [_ Heq];
      [discriminate Heq|apply strftime_chars|unfold stamp_char, c_underscore; lia]
    | symmetry in Heq; apply stamp_head in Heq as [_ Heq];
      [discriminate Heq|apply strftime_chars|unfold stamp_char, c_underscore; lia] ].

Lemma saved_names_NoDup p d1 d2 : NoDup (saved_names p d1 d2).
Proof.
  unfold saved_names, latest_json, stamped_json, latest_analysis, stamped_analysis,
    latest_xlsx.
  repeat (apply NoDup_cons; split); [..|apply NoDup_nil_2];
    rewrite ?not_elem_of_cons; split_and?; try apply not_elem_of_nil;
    intros Heq; apply app_inv_head in Heq; eval_py; cbn [app] in Heq;
    try discriminate Heq; injection Heq as Heq.
  - stamp_differs Heq.
  - stamp_differs Heq.
  - stamp_differs Heq.
  - by apply stamps_differ in Heq; [|apply strftime_chars|apply strftime_chars].
  - stamp_differs Heq.
  - stamp_differs Heq.
  - stamp_differs Heq.
Qed.

Lemma after_save_lookup engine gold_data a p (d1 d2 : datetime) (dir : directory) :
  let dir' := after_save engine gold_data a p d1 d2 dir in
  dir' !! latest_json p = Some (Json (RecordsDoc gold_data)) ∧
  dir' !! stamped_json p d1 = Some (Json (RecordsDoc gold_data)) ∧
  dir' !! latest_analysis p = Some (Json (AnalysisDoc a)) ∧
  dir' !! stamped_analysis p d2 = Some (Json (AnalysisDoc a)) ∧
  dir' !! latest_xlsx p =
    (if engine then Some (Workbook gold_data) else dir !! latest_xlsx p) ∧
  ∀ n, n ∉ saved_names p d1 d2 → dir' !! n = dir !! n.
Proof.
  pose proof (saved_names_NoDup p d1 d2) as Hnd. unfold saved_names in Hnd.
  apply NoDup_cons in Hnd as [H1 Hnd]. apply NoDup_cons in Hnd as [H2 Hnd].
  apply NoDup_cons in Hnd as [H3 Hnd]. apply NoDup_cons in Hnd as [H4 _].
  rewrite !not_elem_of_cons in H1. rewrite !not_elem_of_cons in H2.
  rewrite !not_elem_of_cons in H3. rewrite !not_elem_of_cons in H4.
  destruct H1 as (H12 & H13 & H14 & H15 & _), H2 as (H23 & H24 & H25 & _),
    H3 as (H34 & H35 & _), H4 as (H45 & _).
  unfold after_save, saved_names, directory in *. cbn zeta.
  split_and!;
    try (destruct engine;
         repeat (rewrite lookup_insert_ne by (done || (apply not_eq_sym; done)));
         by rewrite ?lookup_insert_eq).
  intros n Hn. rewrite !not_elem_of_cons in Hn.
  destruct Hn as (? & ? & ? & ? & ? & _).
  destruct engine;
    by repeat (rewrite lookup_insert_ne by (done || (apply not_eq_sym; done))).
Qed.

Lemma saved_names_prefix p d1 d2 n : n ∈ saved_names p d1 d2 → ∃ tl, n = p ++ tl.
Proof.
  unfold saved_names. rewrite !elem_of_cons.
  intros [->|[->|[->|[->|[->|H]]]]]; [by eexists..|by apply elem_of_nil in H].
Qed.

Lemma prefix_of_inj g1 g2 (tl1 tl2 : str) :
  prefix_of g1 ++ tl1 = prefix_of g2 ++ tl2 → g1 = g2.
Proof.
  destruct g1, g2; try done; unfold prefix_of; eval_py; cbn [app];
    intros H; discriminate H.
Qed.

(** The names of two members are all different. *)
Lemma saved_names_disjoint g1 g2 d1 d2 d3 d4 n :
  g1 ≠ g2 →
  n ∈ saved_names (prefix_of g1) d1 d2 → n ∉ saved_names (prefix_of g2) d3 d4.
Proof.
  intros Hne [tl1 ->]%saved_names_prefix [tl2 H]%saved_names_prefix.
  by apply prefix_of_inj in H.
Qed.

Lemma latest_json_saved p d1 d2 : latest_json p ∈ saved_names p d1 d2.
Proof. by left. Qed.

Lemma load_data_lookup cal t dir k :
  GoldDataManager.load_data cal t dir k =
    Ok (match dir !! latest_json (prefix_for k) with
        | Some (Json d) => Some d
        | _ => None
        end).
Proof.
  unfold GoldDataManager.load_data. rewrite get_filename_latest.
  cbn [mbind result_bind]. change (prefix_for k ++ s_latest ++ s_json)
    with (latest_json (prefix_for k)) at 1.
  by destruct (dir !! latest_json (prefix_for k)) as [[]|].
Qed.


(** ** Prices that count as true *)



Lemma latest_files_hold_records_spec dir g r :
  latest_files_hold_records dir = true →
  dir !! latest_json (prefix_of g) ≠ Some (Json (AnalysisDoc (Sections r))).
Proof.
  unfold latest_files_hold_records. rewrite forallb_forall. intros Hall Heq.
  specialize (Hall g). unfold holds_sections in Hall. rewrite Heq in Hall.
  assert (In g GoldType_members) as Hin by (destruct g; simpl; tauto).
  by specialize (Hall Hin).
Qed.



(** ** The loops over the members *)




(** * The claims of the specification *)

(** ** C1: the configuration lookup *)

(** C1, as stated, fails: for the identifier ["silver"], which is outside
    the registry, the lookup raises nothing and returns the configuration
    of 首饰黄金. *)
Lemma get_config_foreign_returns_default :
  dict_lookup GoldDataConfig.GOLD_CONFIGS (Foreign (py "silver")) = None ∧
  GoldDataConfig.get_config (Foreign (py "silver")) = Ok jewelry_config.
Proof. split; reflexivity. Qed.

(** C1, amended: the lookup never raises; for a registered identifier it
    returns that category's configuration, and for every identifier outside
    the registry it returns the configuration registered for JEWELRY. *)
Theorem get_config_registry (gold_type : category_id) :
  ∃ cfg, GoldDataConfig.get_config gold_type = Ok cfg ∧
    match gold_type with
    | Member g => dict_lookup GoldDataConfig.GOLD_CONFIGS (Member g) = Some cfg
    | Foreign _ =>
        dict_lookup GoldDataConfig.GOLD_CONFIGS gold_type = None ∧
        dict_lookup GoldDataConfig.GOLD_CONFIGS (Member JEWELRY) = Some cfg
    end.
Proof.
  destruct gold_type as [g|s].
  - apply get_config_member.
  - destruct (get_config_foreign s) as (cfg & ? & ?). by exists cfg.
Qed.

(** ** C2: aggregation of the empty collection *)

(** C2, as stated, fails: for the empty collection the result is the dict
    without any key, in which neither the overview nor the price statistics
    can be read. *)
Lemma analyze_empty_is_empty_dict :
  analyze_gold_data [] = Ok EmptyDict ∧
  get_overview EmptyDict = Raise KeyError ∧
  get_price_analysis EmptyDict = Raise KeyError.
Proof. by split_and!. Qed.

(** C2, amended: the aggregation never raises; it returns the empty dict
    exactly for the empty collection, and otherwise a report whose overview
    counts all the records. *)
Theorem analyze_empty_iff (gold_data : list gold_record) :
  ∃ a, analyze_gold_data gold_data = Ok a ∧
    (a = EmptyDict ↔ gold_data = []) ∧
    ∀ r, a = Sections r →
      total_records (data_overview r) = length gold_data ∧
      (0 < total_records (data_overview r))%nat.
Proof.
  destruct gold_data as [|x l].
  - exists EmptyDict. by split_and!.
  - destruct (analyze_nonempty (x :: l)) as (r & Hr & Htotal & _); [done|].
    exists (Sections r). split_and!; [done|done|].
    intros r' ?; simplify_eq. rewrite Htotal. simpl. split; [done|lia].
Qed.

(** ** C5: validation of a row *)

(** C5: normalizing a row of eight fields never raises; it gives a record
    exactly when date, brand, product, price text and unit are not empty once
    trimmed, and the record holds the eight trimmed fields; trimming removes
    the white space at both ends and nothing else; no record of an extraction
    has one of the five fields empty. *)
Theorem normalize_row_requires_five_fields :
  (∀ now t cfg g f1 f2 f3 f4 f5 f6 f7 f8,
     ∃ r, normalize_row now t cfg (Member g) [f1; f2; f3; f4; f5; f6; f7; f8] = Ok r ∧
       (is_Some r ↔
          strip f1 ≠ [] ∧ strip f2 ≠ [] ∧ strip f3 ≠ [] ∧ strip f4 ≠ [] ∧ strip f5 ≠ []) ∧
       ∀ rec, r = Some rec →
         record_of_row [f1; f2; f3; f4; f5; f6; f7; f8] rec ∧ required_present rec) ∧
  (∀ s, ∃ l r, s = l ++ strip s ++ r ∧
     Forall (λ c, isspace c = true) l ∧ Forall (λ c, isspace c = true) r ∧
     head_ok Space (strip s) = false ∧ head_ok Space (reverse (strip s)) = false) ∧
  (∀ now html gold_type recs,
     parse_complete_gold_data now html gold_type = Ok recs →
     Forall required_present recs).
Proof.
  split_and!.
  - intros. pose proof (normalize_row_valid now t cfg g [f1; f2; f3; f4; f5; f6; f7; f8] eq_refl) as H.
    unfold row_valid in H. cbn [nth] in H.
    destruct (required _ _ _ _ _) eqn:E.
    + destruct H as (rec & Hrec & Hrel & _). exists (Some rec).
      apply required_spec in E. split_and!; [done|done|].
      intros rec' ?; simplify_eq. split; [done|].
      destruct Hrel as (Hd & Hb & Hp & Hpr & Hu & _). cbn [nth] in *.
      unfold required_present. by rewrite Hd, Hb, Hp, Hpr, Hu.
    + exists None. split_and!; [done| |done].
      split; [by intros [? ?]|]. intros H'%required_spec. congruence.
  - apply strip_spec.
  - intros now html k recs Hparse.
    destruct (parse_first_seen now html k) as (cfg & _ & Heq). rewrite Heq in Hparse.
    apply normalize_loop_inv in Hparse as (new & -> & Hnew). simpl.
    eapply Forall_impl; [done|]. intros rec (m & t & _ & Hrow).
    apply normalize_row_Some in Hrow as (f1 & f2 & f3 & f4 & f5 & f6 & f7 & f8 & tl & _ & Hrow).
    rewrite normalize_row_eight in Hrow.
    destruct (required _ _ _ _ _) eqn:E; [|done]. apply required_spec in E.
    destruct (price_step (strip f4)) as [pv|]; [|done]. cbn [mbind result_bind] in Hrow.
    destruct (value k) as [code|]; [|done]. cbn [mbind result_bind] in Hrow.
    simplify_eq. apply E.
Qed.

(** ** C6: the price value *)



Example sample_row_record :
  normalize_row sample_now 0 jewelry_config (Member JEWELRY) sample_row =
    Ok (Some sample_record).
Proof. vm_compute. reflexivity. Qed.

Example unpriced_row_record :
  normalize_row sample_now 0 jewelry_config (Member JEWELRY) unpriced_row =
    Ok (Some {| date := py "2025-09-17"; brand := py "周大福"; product := py "足金";
                price := py "面议"; price_value := None;
                unit := py "元/克"; purity := py "999"; craft_fee := py "无";
                trend := py "平"; gold_type_name := py "首饰黄金";
                gold_type_code := py "jewelry"; source := py "新浪财经";
                parsed_at := py "2025-09-17T10:00:00" |}).
Proof. vm_compute. reflexivity. Qed.

(** ** C9: two runs on the same text *)

(** C9: two runs of the extraction on the same text and the same category
    end in the same way, with records that agree in every field except
    [parsed_at]; for a member of the enumeration both runs return. *)
Theorem extraction_deterministic_up_to_clock :
  (∀ now1 now2 html gold_type,
     match parse_complete_gold_data now1 html gold_type,
           parse_complete_gold_data now2 html gold_type with
     | Ok recs1, Ok recs2 => length recs1 = length recs2 ∧ Forall2 same_fields recs1 recs2
     | Raise e1, Raise e2 => e1 = e2
     | _, _ => False
     end) ∧
  (∀ now1 now2 html g,
     ∃ recs1 recs2,
       parse_complete_gold_data now1 html (Member g) = Ok recs1 ∧
       parse_complete_gold_data now2 html (Member g) = Ok recs2 ∧
       length recs1 = length recs2 ∧ Forall2 same_fields recs1 recs2).
Proof.
  assert (∀ now1 now2 html gold_type,
     match parse_complete_gold_data now1 html gold_type,
           parse_complete_gold_data now2 html gold_type with
     | Ok recs1, Ok recs2 => length recs1 = length recs2 ∧ Forall2 same_fields recs1 recs2
     | Raise e1, Raise e2 => e1 = e2
     | _, _ => False
     end) as Hgen.
  { intros now1 now2 html k.
    destruct (parse_first_seen now1 html k) as (cfg & Hcfg & ->).
    destruct (parse_first_seen now2 html k) as (cfg' & Hcfg' & ->).
    assert (cfg' = cfg) as -> by congruence.
    pose proof (normalize_loop_clock now1 now2 cfg k (first_seen (pool html)) 0 0 [] []
                  ltac:(constructor)) as H.
    destruct (normalize_loop now1 cfg k (first_seen (pool html)) 0 []) as [recs1|e1],
             (normalize_loop now2 cfg k (first_seen (pool html)) 0 []) as [recs2|e2];
      try done.
    split; [|done]. by eapply Forall2_length. }
  split; [done|]. intros now1 now2 html g.
  destruct (parse_members now1 html g) as (recs1 & H1 & _).
  destruct (parse_members now2 html g) as (recs2 & H2 & _).
  exists recs1, recs2. specialize (Hgen now1 now2 html (Member g)).
  rewrite H1, H2 in Hgen. destruct Hgen. by split_and!.
Qed.

(** ** C10: presence and sign of the price value *)

(** C10: in every record that normalization produces, [price_value] is
    present exactly when the trimmed price text holds a decimal digit (a
    character that [\d] matches), and a present value is not negative. *)
Theorem price_value_present_iff_digit now t cfg gold_type m rec :
  normalize_row now t cfg gold_type m = Ok (Some rec) →
  (is_Some (price_value rec) ↔ Exists (λ c, isdecimal c = true) (price rec)) ∧
  ∀ v, price_value rec = Some v → (0 <= v)%Q.
Proof.
  intros Hrow.
  apply normalize_row_Some in Hrow as (f1 & f2 & f3 & f4 & f5 & f6 & f7 & f8 & tl & _ & Hrow).
  rewrite normalize_row_eight in Hrow.
  destruct (required _ _ _ _ _); [|done].
  destruct (price_step_spec (strip f4)) as (pv & Hstep & Hpv). rewrite Hstep in Hrow.
  cbn [mbind result_bind] in Hrow.
  destruct (value gold_type) as [code|]; [|done]. cbn [mbind result_bind] in Hrow.
  simplify_eq. cbn [price_value price]. rewrite <- first_number_Some.
  destruct (first_number (strip f4)) as [tok|].
  - destruct Hpv as (v & _ & -> & Hv). split; [done|]. by intros ? [= <-].
  - subst pv. split; [done|]. done.
Qed.

(** The record of the specification's example row: its price value is
    present, its price text holds digits. *)
Lemma price_value_present_iff_digit_witness :
  (is_Some (price_value sample_record)
   ↔ Exists (λ c, isdecimal c = true) (price sample_record)) ∧
  ∀ v, price_value sample_record = Some v → (0 <= v)%Q.
Proof.
  apply (price_value_present_iff_digit sample_now 0 jewelry_config (Member JEWELRY)
           sample_row sample_record).
  vm_compute. reflexivity.
Defined.

(** ** C3: documents of well-formed rows *)




(** ** C4: one candidate per key *)

(** C4: the pooled candidates are kept by first occurrence of their key
    (the first four fields): a candidate is kept exactly when no earlier
    candidate of the pool has its key, the kept ones stay in the order of the
    pool, and the records are made from them; of two candidates with one key
    the first is kept, as in the document of [purity_rows]. *)
Theorem dedup_first_seen_by_key :
  (∀ html,
     dedup_loop (pool html) ∅ [] = Ok (first_seen (pool html)) ∧
     first_seen (pool html) `sublist_of` pool html ∧
     NoDup (row_key <$> first_seen (pool html)) ∧
     ∀ m, m ∈ first_seen (pool html) ↔
          ∃ i, pool html !! i = Some m ∧
               ∀ j m', (j < i)%nat → pool html !! j = Some m' → row_key m' ≠ row_key m) ∧
  (∀ now html gold_type,
     ∃ cfg, GoldDataConfig.get_config gold_type = Ok cfg ∧
       parse_complete_gold_data now html gold_type =
         normalize_loop now cfg gold_type (first_seen (pool html)) 0 []) ∧
  (∀ m1 m2 : list str, row_key m1 = row_key m2 → first_seen [m1; m2] = [m1]) ∧
  (∀ now,
     (λ r, nth 5 (fields r) []) <$> purity_rows = [py "999"; py "990"] ∧
     ∃ rec,
       parse_complete_gold_data now (document purity_rows) (Member JEWELRY) = Ok [rec] ∧
       purity rec = py "999").
Proof.
  split_and!.
  - intros html. split_and!.
    + apply dedup_loop_first_seen, pool_length.
    + apply first_seen_sublist.
    + apply first_seen_NoDup.
    + apply first_seen_lookup.
  - apply parse_first_seen.
  - intros m1 m2 Hkey. unfold first_seen, is_first.
    cbn [length seq zip zip_with omap list_omap fst snd take fmap list_fmap].
    rewrite (bool_decide_eq_true_2 (row_key m1 ∉ [])) by apply not_elem_of_nil.
    rewrite (bool_decide_eq_false_2 (row_key m2 ∉ [row_key m1])); [done|].
    intros H. apply H. rewrite Hkey. by left.
  - intros now. split; [vm_compute; reflexivity|].
    eexists. split; [vm_compute; reflexivity|]. reflexivity.
Qed.

(** ** C7: the price statistics *)



(** Of the four prices 4, 1, 3, 2 the median is 3, the upper of the two
    middle ones, and the record without price is not counted. *)
Example median_is_upper_middle :
  ∃ r, analyze_gold_data sample_records = Ok (Sections r) ∧
    price_analysis r =
      Some {| highest := 4%Q; lowest := 1%Q; average := ((0 + 4 + 1 + 3 + 2) / 4)%Q;
              median := 3%Q; price_number := 4 |} ∧
    total_records (data_overview r) = 5%nat.
Proof. eexists. split; [vm_compute; reflexivity|]. split; reflexivity. Qed.

(** ** C8: the trend distribution *)



(** The percentages count the records without trend in the denominator. *)
Example trend_ratio_counts_empty_trends :
  ∃ r, analyze_gold_data [quoted None (py "涨"); quoted None []; quoted None []; quoted None []]
         = Ok (Sections r) ∧
    trend_ratio r = [(py "涨", py "25.0%"); ([], py "75.0%")].
Proof. eexists. split; [vm_compute; reflexivity|]. reflexivity. Qed.

(** * Further properties of the code *)

(** ** The report of [analyze_gold_data] *)

(** X1: in the report of a collection that is not empty, the counts of the
    brand table, of the product table, of the trend table and of the date
    table each add up to the number of records. *)
Theorem report_counts_add_up gold_data :
  (0 < length gold_data)%nat →
  ∃ r, analyze_gold_data gold_data = Ok (Sections r) ∧
    total_records (data_overview r) = length gold_data ∧
    total_count (brand_stats r) = length gold_data ∧
    total_count (product_stats r) = length gold_data ∧
    total_count (trend_stats r) = length gold_data ∧
    total_count (date_stats r) = length gold_data.
Proof.
  intros Hlen.
  assert (gold_data ≠ []) as Hne by (intros ->; simpl in Hlen; lia).
  destruct (analyze_report gold_data Hne)
    as (r & lo & hi & Hr & _ & _ & _ & Ht & _ & _ & _ & Hb & _ & Hp & _ & Htr & Hd & _).
  exists r. split; [done|]. split; [done|].
  rewrite Hb, Hp, Htr, Hd, !most_common_total, !Counter_total, !length_fmap. done.
Qed.

Lemma report_counts_add_up_witness :
  ∃ r, analyze_gold_data sample_records = Ok (Sections r) ∧
    total_records (data_overview r) = length sample_records ∧
    total_count (brand_stats r) = length sample_records ∧
    total_count (product_stats r) = length sample_records ∧
    total_count (trend_stats r) = length sample_records ∧
    total_count (date_stats r) = length sample_records.
Proof. apply report_counts_add_up. simpl. lia. Defined.

(** X2: the tables 品牌统计, 产品类型统计 and 日期统计 of the report are frequency
    tables of the brands, of the products and of the dates of the records:
    every distinct value once with the number of its records, the larger
    counts first, values of one count in the order of their first record. *)
Theorem report_tables_by_count gold_data :
  (0 < length gold_data)%nat →
  ∃ r, analyze_gold_data gold_data = Ok (Sections r) ∧
    frequency_table (brand <$> gold_data) (brand_stats r) ∧
    frequency_table (product <$> gold_data) (product_stats r) ∧
    frequency_table (date <$> gold_data) (date_stats r).
Proof.
  intros Hlen.
  assert (gold_data ≠ []) as Hne by (intros ->; simpl in Hlen; lia).
  destruct (analyze_report gold_data Hne)
    as (r & lo & hi & Hr & _ & _ & _ & _ & _ & _ & _ & Hb & _ & Hp & _ & _ & Hd & _).
  exists r. split; [done|]. rewrite Hb, Hp, Hd.
  split_and!; apply most_common_frequency_table.
Qed.

Lemma report_tables_by_count_witness :
  ∃ r, analyze_gold_data sample_records = Ok (Sections r) ∧
    frequency_table (brand <$> sample_records) (brand_stats r) ∧
    frequency_table (product <$> sample_records) (product_stats r) ∧
    frequency_table (date <$> sample_records) (date_stats r).
Proof. apply report_tables_by_count. simpl. lia. Defined.

(** X3: 主要品牌 and 热门产品 are the first ten entries of 品牌统计 and of
    产品类型统计, all of them when there are at most ten; no entry that is left
    out has a larger count than an entry that is kept. *)
Theorem report_top_ten gold_data :
  (0 < length gold_data)%nat →
  ∃ r, analyze_gold_data gold_data = Ok (Sections r) ∧
    main_brands r = take 10 (brand_stats r) ∧
    length (main_brands r) = (brand_number (data_overview r) `min` 10)%nat ∧
    (∀ kept left, kept ∈ main_brands r → left ∈ drop 10 (brand_stats r) →
       (left.2 ≤ kept.2)%nat) ∧
    hot_products r = take 10 (product_stats r) ∧
    length (hot_products r) = (product_number (data_overview r) `min` 10)%nat ∧
    (∀ kept left, kept ∈ hot_products r → left ∈ drop 10 (product_stats r) →
       (left.2 ≤ kept.2)%nat).
Proof.
  intros Hlen.
  assert (gold_data ≠ []) as Hne by (intros ->; simpl in Hlen; lia).
  destruct (analyze_report gold_data Hne)
    as (r & lo & hi & Hr & _ & _ & _ & _ & Hbn & Hpn & _ & Hb & Hmb & Hp & Hhp & _).
  exists r. split; [done|]. rewrite Hb, Hmb, Hp, Hhp, Hbn, Hpn.
  split_and!; try done.
  - unfold most_common_n. rewrite length_take, most_common_length. lia.
  - apply most_common_n_cut.
  - unfold most_common_n. rewrite length_take, most_common_length. lia.
  - apply most_common_n_cut.
Qed.

Lemma report_top_ten_witness :
  ∃ r, analyze_gold_data sample_records = Ok (Sections r) ∧
    main_brands r = take 10 (brand_stats r) ∧
    length (main_brands r) = (brand_number (data_overview r) `min` 10)%nat ∧
    (∀ kept left, kept ∈ main_brands r → left ∈ drop 10 (brand_stats r) →
       (left.2 ≤ kept.2)%nat) ∧
    hot_products r = take 10 (product_stats r) ∧
    length (hot_products r) = (product_number (data_overview r) `min` 10)%nat ∧
    (∀ kept left, kept ∈ hot_products r → left ∈ drop 10 (product_stats r) →
       (left.2 ≤ kept.2)%nat).
Proof. apply report_top_ten. simpl. lia. Defined.

(** X4: 品牌数量, 产品类型数量 and 数据日期数 are the numbers of different brands,
    products and dates among the records, each at least one and at most the
    number of records; 有效价格记录数 is at most the number of records. *)
Theorem report_distinct_numbers gold_data :
  (0 < length gold_data)%nat →
  ∃ r, analyze_gold_data gold_data = Ok (Sections r) ∧
    brand_number (data_overview r)
      = size (list_to_set (C := gset str) (brand <$> gold_data)) ∧
    product_number (data_overview r)
      = size (list_to_set (C := gset str) (product <$> gold_data)) ∧
    date_number r = size (list_to_set (C := gset str) (date <$> gold_data)) ∧
    (1 ≤ brand_number (data_overview r) ≤ length gold_data)%nat ∧
    (1 ≤ product_number (data_overview r) ≤ length gold_data)%nat ∧
    (1 ≤ date_number r ≤ length gold_data)%nat ∧
    (valid_price_number (data_overview r) ≤ length gold_data)%nat.
Proof.
  intros Hlen.
  assert (gold_data ≠ []) as Hne by (intros ->; simpl in Hlen; lia).
  destruct (analyze_report gold_data Hne)
    as (r & lo & hi & Hr & _ & _ & _ & _ & Hbn & Hpn & Hv & _ & _ & _ & _ & _ & _ & Hdn).
  exists r. split; [done|]. rewrite Hbn, Hpn, Hdn, Hv.
  assert (∀ xs : list str, (0 < length xs)%nat →
            (1 ≤ length (Counter xs) ≤ length xs)%nat) as Hbound.
  { intros xs Hxs.
    pose proof (Counter_total xs) as Ht. unfold total_count in Ht.
    assert (Forall (λ kv : str * nat, (1 ≤ kv.2)%nat) (Counter xs)) as Hpos.
    { apply Forall_forall. intros [k n] Hin. apply Counter_elem in Hin as [Hin ->].
      unfold count_of. simpl.
      apply list_elem_of_split in Hin as (l1 & l2 & ->).
      rewrite filter_app, filter_cons, decide_True, length_app by done. simpl. lia. }
    split.
    - destruct (Counter xs); [simpl in Ht; lia|simpl; lia].
    - rewrite <- Ht. clear Ht.
      induction Hpos as [|kv c Hkv _ IH]; simpl; lia. }
  pose proof (Hbound (brand <$> gold_data)) as Hb.
  pose proof (Hbound (product <$> gold_data)) as Hp.
  pose proof (Hbound (date <$> gold_data)) as Hd.
  rewrite length_fmap in Hb, Hp, Hd.
  split_and!; try apply Counter_length; try lia.
  apply present_prices_length.
Qed.

Lemma report_distinct_numbers_witness :
  ∃ r, analyze_gold_data sample_records = Ok (Sections r) ∧
    brand_number (data_overview r)
      = size (list_to_set (C := gset str) (brand <$> sample_records)) ∧
    product_number (data_overview r)
      = size (list_to_set (C := gset str) (product <$> sample_records)) ∧
    date_number r = size (list_to_set (C := gset str) (date <$> sample_records)) ∧
    (1 ≤ brand_number (data_overview r) ≤ length sample_records)%nat ∧
    (1 ≤ product_number (data_overview r) ≤ length sample_records)%nat ∧
    (1 ≤ date_number r ≤ length sample_records)%nat ∧
    (valid_price_number (data_overview r) ≤ length sample_records)%nat.
Proof. apply report_distinct_numbers. simpl. lia. Defined.

(** X5: 数据日期范围 is the least date text, the separator 至 between blanks,
    and the greatest date text, where the texts are compared code point by
    code point: both are dates of records, no date is below the first and
    none is above the second. *)
Theorem report_date_range gold_data :
  (0 < length gold_data)%nat →
  ∃ r lo hi, analyze_gold_data gold_data = Ok (Sections r) ∧
    date_range (data_overview r) = lo ++ py " 至 " ++ hi ∧
    lo ∈ date <$> gold_data ∧ hi ∈ date <$> gold_data ∧
    ∀ d, d ∈ date <$> gold_data → str_ltb d lo = false ∧ str_ltb hi d = false.
Proof.
  intros Hlen.
  assert (gold_data ≠ []) as Hne by (intros ->; simpl in Hlen; lia).
  destruct (analyze_report gold_data Hne) as (r & lo & hi & Hr & Hlo & Hhi & Hrange & _).
  assert (date <$> gold_data ≠ []) as Hd by (by destruct gold_data).
  destruct (str_min_spec _ Hd) as (lo' & Hlo' & Hlo_in & Hlo_min).
  destruct (str_max_spec _ Hd) as (hi' & Hhi' & Hhi_in & Hhi_max).
  assert (lo' = lo) as -> by congruence.
  assert (hi' = hi) as -> by congruence.
  exists r, lo, hi. split_and!; try done.
  intros d Hin. split; [by apply Hlo_min|by apply Hhi_max].
Qed.

Lemma report_date_range_witness :
  ∃ r lo hi, analyze_gold_data sample_records = Ok (Sections r) ∧
    date_range (data_overview r) = lo ++ py " 至 " ++ hi ∧
    lo ∈ date <$> sample_records ∧ hi ∈ date <$> sample_records ∧
    ∀ d, d ∈ date <$> sample_records → str_ltb d lo = false ∧ str_ltb hi d = false.
Proof. apply report_date_range. simpl. lia. Defined.



(** X7: the 中位数 of the report splits the prices: of the [n] prices
    present, more than [n / 2] are at most the median and at least
    [n - n / 2] are at least the median. *)
Theorem median_splits_prices gold_data :
  (0 < length (omap price_value gold_data))%nat →
  ∃ r stats,
    analyze_gold_data gold_data = Ok (Sections r) ∧
    price_analysis r = Some stats ∧
    let prices := omap price_value gold_data in
    (length prices / 2 < number_at_most (median stats) prices)%nat ∧
    (length prices - length prices / 2 ≤ number_at_least (median stats) prices)%nat.
Proof.
  intros Hlen. rewrite <- present_prices_omap in *.
  assert (present_prices gold_data ≠ []) as Hne by (intros E; rewrite E in Hlen; simpl in Hlen; lia).
  destruct (analyze_prices gold_data Hne) as (r & stats & Hr & Hs & _ & _ & _ & Hmed).
  apply index_Ok in Hmed.
  exists r, stats. split; [done|]. split; [done|]. cbn zeta.
  destruct (Sorted_halves _ _ _ (sorted_Sorted (present_prices gold_data)) Hmed) as [H1 H2].
  rewrite (number_at_most_perm _ _ _ (sorted_Permutation _)) in H1.
  rewrite (number_at_least_perm _ _ _ (sorted_Permutation _)) in H2.
  rewrite sorted_length in H2. split; [lia|done].
Qed.

Lemma median_splits_prices_witness :
  ∃ r stats,
    analyze_gold_data sample_records = Ok (Sections r) ∧
    price_analysis r = Some stats ∧
    let prices := omap price_value sample_records in
    (length prices / 2 < number_at_most (median stats) prices)%nat ∧
    (length prices - length prices / 2 ≤ number_at_least (median stats) prices)%nat.
Proof. apply median_splits_prices. simpl. lia. Defined.

(** X8: 涨跌统计 and 涨跌比例 have the same keys in the same order: the
    different trend texts of the records, in the order in which they first
    occur. *)
Theorem trend_tables_in_first_occurrence_order gold_data :
  (0 < length gold_data)%nat →
  ∃ r, analyze_gold_data gold_data = Ok (Sections r) ∧
    fst <$> trend_stats r = distinct (trend <$> gold_data) ∧
    fst <$> trend_ratio r = distinct (trend <$> gold_data).
Proof.
  intros Hlen.
  assert (gold_data ≠ []) as Hne by (intros ->; simpl in Hlen; lia).
  destruct (analyze_nonempty gold_data Hne) as (r & Hr & _ & _ & Hts & Htr & _).
  exists r. split; [done|]. rewrite Htr, Hts, <- list_fmap_compose.
  split; apply Counter_keys.
Qed.

Lemma trend_tables_in_first_occurrence_order_witness :
  ∃ r, analyze_gold_data sample_records = Ok (Sections r) ∧
    fst <$> trend_stats r = distinct (trend <$> sample_records) ∧
    fst <$> trend_ratio r = distinct (trend <$> sample_records).
Proof. apply trend_tables_in_first_occurrence_order. simpl. lia. Defined.

(** ** The extraction *)

(** X9: for a member of the enumeration the extraction returns on every
    text, and every record carries the name of the category's configuration
    as 黄金类型, the value of the member as 黄金类型代码 and 新浪财经 as 数据来源, with
    its five required fields not empty; the 解析时间 of the records are the
    successive readings of the clock, one reading for each record. *)
Theorem extraction_adds_category_and_time now html g :
  ∃ recs cfg code,
    parse_complete_gold_data now html (Member g) = Ok recs ∧
    dict_lookup GoldDataConfig.GOLD_CONFIGS (Member g) = Some cfg ∧
    value (Member g) = Ok code ∧
    Forall (λ r, gold_type_name r = name cfg ∧ gold_type_code r = code ∧
                 source r = py "新浪财经" ∧ required_present r) recs ∧
    parsed_at <$> recs = now <$> seq 0 (length recs).
Proof.
  destruct (parse_first_seen now html (Member g)) as (cfg & Hcfg & Hparse).
  destruct (get_config_member g) as (cfg' & Hcfg' & Hlookup).
  assert (cfg' = cfg) as -> by congruence.
  destruct (value_member g) as [code Hcode].
  destruct (normalize_loop_members now cfg g (first_seen (pool html)) 0 [])
    as (recs & Hloop & _ & Htimes).
  { apply first_seen_length, pool_length. }
  exists recs, cfg, code. rewrite Hparse, Hloop. split_and!; try done.
  apply normalize_loop_enriched in Hloop as (new & Hnew & Hall).
  simpl in Hnew. subst new. eapply Forall_impl; [exact Hall|].
  intros r (? & Hv & ? & ?). split_and!; try done. congruence.
Qed.


(** X11: a text in which [<td] does not occur, the empty text among them,
    gives the empty list, for every category. *)
Theorem extraction_without_cells now html k :
  occurs s_td html = false →
  parse_complete_gold_data now html k = Ok [].
Proof.
  intros Ho. destruct (parse_first_seen now html k) as (cfg & _ & ->).
  by rewrite (pool_without_td html Ho).
Qed.

Lemma extraction_without_cells_witness :
  parse_complete_gold_data sample_now plain_text (Foreign (py "silver")) = Ok [].
Proof. apply extraction_without_cells. vm_compute. reflexivity. Defined.

(** ** The files of a save *)



(** X14: saving one member of the enumeration leaves every file of another
    member as it was, the files with a time stamp included, so that
    [load_data] returns for the other member what it returned before. *)
Theorem save_keeps_other_categories cal t engine gold_data a g1 g2
    (data_dir : directory) :
  g1 ≠ g2 →
  ∃ saved,
    GoldDataManager._save_data cal t engine gold_data a (Member g1) data_dir = Ok saved ∧
    (∀ d1 d2 n, n ∈ saved_names (prefix_of g2) d1 d2 → saved !! n = data_dir !! n) ∧
    ∀ cal' t',
      GoldDataManager.load_data cal' t' saved (Member g2) =
      GoldDataManager.load_data cal' t' data_dir (Member g2).
Proof.
  intros Hne. eexists. split; [apply _save_data_after|].
  destruct (after_save_lookup engine gold_data a (prefix_of g1) (cal t) (cal (S t))
              data_dir) as (_ & _ & _ & _ & _ & Hother).
  assert (∀ d1 d2 n, n ∈ saved_names (prefix_of g2) d1 d2 →
            after_save engine gold_data a (prefix_of g1) (cal t) (cal (S t)) data_dir !! n
            = data_dir !! n) as Hfiles.
  { intros d1 d2 n Hn. apply Hother. intros Hn'.
    by apply (saved_names_disjoint g1 g2 (cal t) (cal (S t)) d1 d2 n). }
  split; [exact Hfiles|]. intros cal' t'. rewrite !load_data_lookup.
  cbn [prefix_for]. by rewrite (Hfiles (cal t) (cal t) _ (latest_json_saved _ _ _)).
Qed.

Lemma save_keeps_other_categories_witness :
  ∃ saved,
    GoldDataManager._save_data sample_calendar 0 true sample_records EmptyDict
      (Member JEWELRY) sample_directory = Ok saved ∧
    (∀ d1 d2 n, n ∈ saved_names (prefix_of GOLD_BAR) d1 d2 →
       saved !! n = sample_directory !! n) ∧
    ∀ cal' t',
      GoldDataManager.load_data cal' t' saved (Member GOLD_BAR) =
      GoldDataManager.load_data cal' t' sample_directory (Member GOLD_BAR).
Proof. apply save_keeps_other_categories. vm_compute. discriminate. Defined.


(** X16: a save never puts the sections of an analysis under the name of
    a latest data file: a directory in which no latest file of a member
    holds them is still such a directory after [_save_data], for every
    category. *)
Theorem save_keeps_latest_files_records cal t engine gold_data a k
    (data_dir : directory) :
  latest_files_hold_records data_dir = true →
  ∃ saved,
    GoldDataManager._save_data cal t engine gold_data a k data_dir = Ok saved ∧
    latest_files_hold_records saved = true.
Proof.
  intros Hdir. eexists. split; [apply _save_data_after|].
  unfold latest_files_hold_records. apply forallb_forall. intros g _.
  apply negb_true_iff. unfold holds_sections.
  destruct (after_save_lookup engine gold_data a (prefix_for k) (cal t) (cal (S t))
              data_dir) as (H1 & H2 & H3 & H4 & H5 & Hother).
  destruct (decide (latest_json (prefix_of g) ∈
                      saved_names (prefix_for k) (cal t) (cal (S t)))) as [Hin|Hnin].
  - unfold saved_names in Hin. rewrite !elem_of_cons in Hin.
    destruct Hin as [->|[Heq|[Heq|[Heq|[Heq|Hin]]]]].
    + by rewrite H1.
    + rewrite Heq. by rewrite H2.
    + exfalso. revert Heq. unfold latest_json, latest_analysis.
      destruct k as [[]|s], g; unfold prefix_for, prefix_of; eval_py; cbn [app];
        intros Heq; discriminate Heq.
    + exfalso. revert Heq. unfold latest_json, stamped_analysis.
      destruct k as [[]|s], g; unfold prefix_for, prefix_of; eval_py; cbn [app];
        intros Heq; try discriminate Heq; injection Heq as Heq; stamp_differs Heq.
    + exfalso. revert Heq. unfold latest_json, latest_xlsx.
      destruct k as [[]|s], g; unfold prefix_for, prefix_of; eval_py; cbn [app];
        intros Heq; discriminate Heq.
    + by apply elem_of_nil in Hin.
  - rewrite (Hother _ Hnin).
    pose proof (latest_files_hold_records_spec data_dir g) as Hg.
    destruct (data_dir !! latest_json (prefix_of g)) as [[[|[|r]]|]|]; try done.
    by destruct (Hg r Hdir).
Qed.

Lemma save_keeps_latest_files_records_witness :
  ∃ saved,
    GoldDataManager._save_data sample_calendar 0 true sample_records EmptyDict
      (Member PHYSICAL) sample_directory = Ok saved ∧
    latest_files_hold_records saved = true.
Proof. apply save_keeps_latest_files_records. vm_compute. reflexivity. Defined.

(** ** Fetching and saving *)



(** ** The summary and the comparison *)




